(** * dicom_numpy: combining DICOM slices into a volume

    A shallow embedding of [dicom_numpy/combine_slices.py] and the
    properties of its validation, sorting, voxel merging and affine
    transform construction.

    Conventions of the embedding.
    - Python floats and numpy float arrays are exact rationals in canonical
      form ([Qc]); rounding is not represented.  Thresholds such as [1e-4]
      are the rationals they denote.
    - A function that can raise returns a [result]; the Python exception
      classes that the code can meet are the constructors of [exception].
    - [logger.warn] appends to a log that is threaded next to the result
      ([logged]).
    - A pydicom dataset is a record of optional, typed attributes; [None]
      is an absent attribute. *)

From Stdlib Require Import QArith Qcanon ZArith List String Ascii Bool.
From Stdlib Require Import Lia Lra Permutation Sorted.
From Stdlib Require Import Reals Qreals.
Import ListNotations.

Local Open Scope string_scope.
Local Open Scope list_scope.
Local Open Scope Z_scope.
Local Open Scope Qc_scope.

(** ** Numbers *)

Definition Qc_leb (x y : Qc) : bool := Qle_bool x y.
Definition Qc_ltb (x y : Qc) : bool := negb (Qle_bool y x).
Definition Qc_eqb (x y : Qc) : bool := Qc_eq_bool x y.

(** Python's [abs] on a float. *)
Definition py_abs (x : Qc) : Qc := if Qc_leb 0 x then x else - x.

Definition Qc_of_Z (z : Z) : Qc := Q2Qc (inject_Z z).

Definition tol_1e_1 : Qc := Q2Qc (1 # 10).
Definition tol_1e_3 : Qc := Q2Qc (1 # 1000).
Definition tol_1e_4 : Qc := Q2Qc (1 # 10000).
Definition tol_1e_5 : Qc := Q2Qc (1 # 100000).
Definition tol_1e_8 : Qc := Q2Qc (1 # 100000000).

(** ** Vectors of length three ([np.array] of three floats) *)

Record vec3 : Type := Vec3 { v0 : Qc; v1 : Qc; v2 : Qc }.

Definition vec3_to_list (v : vec3) : list Qc := [v0 v; v1 v; v2 v].

Module Np.

Definition dot (a b : vec3) : Qc :=
  v0 a * v0 b + v1 a * v1 b + v2 a * v2 b.

Definition cross (a b : vec3) : vec3 :=
  Vec3 (v1 a * v2 b - v2 a * v1 b)
       (v2 a * v0 b - v0 a * v2 b)
       (v0 a * v1 b - v1 a * v0 b).

(** [v * s] for an array [v] and a scalar [s]. *)
Definition scale (v : vec3) (s : Qc) : vec3 :=
  Vec3 (v0 v * s) (v1 v * s) (v2 v * s).

(** The value of [np.linalg.norm v] is the square root of [dot v v]; it is
    kept as its radicand, and compared through [isclose_root] below. *)
Record root : Type := Sqrt { radicand : Qc }.

Definition norm (v : vec3) : root := Sqrt (dot v v).

(** [np.diff]: consecutive differences [a[i+1] - a[i]]. *)
Fixpoint diff (a : list Qc) : list Qc :=
  match a with
  | x :: ((y :: _) as t) => (y - x) :: diff t
  | _ => []
  end.

Definition sum (a : list Qc) : Qc := fold_right Qcplus 0 a.

(** [np.mean] of a non-empty array. *)
Definition mean (a : list Qc) : Qc :=
  sum a / Qc_of_Z (Z.of_nat (List.length a)).

(** [np.allclose(a, b, atol=0, rtol=rtol)] for an array [a] and a scalar
    [b]: every element satisfies [|x - b| <= atol + rtol * |b|]. *)
Definition allclose (a : list Qc) (b : Qc) (rtol : Qc) : bool :=
  forallb (fun x => Qc_leb (py_abs (x - b)) (0 + rtol * py_abs b)) a.

End Np.

(** Modelled from the spec: [isclose] is imported from [dicom_numpy/utils.py],
    which is not among the sources.  The spec states the orientation checks as
    [|x - target| <= abs_tol], the absolute-tolerance test. *)
Definition isclose (a b abs_tol : Qc) : bool :=
  Qc_leb (py_abs (a - b)) abs_tol.

(** The same test for a value known through its square: [|sqrt s - b| <= t]
    holds exactly when [b - t <= sqrt s] and [sqrt s <= b + t], and each side
    is decided on squares. *)
Definition isclose_root (a : Np.root) (b abs_tol : Qc) : bool :=
  let s := Np.radicand a in
  let lo := b - abs_tol in
  let hi := b + abs_tol in
  (Qc_leb lo 0 || Qc_leb (lo * lo) s) && (Qc_leb 0 hi && Qc_leb s (hi * hi)).

(** ** Attribute values *)

(** The Python values that the attributes read by the code can hold:
    [None], an [int], a [str] and a sequence of decimal numbers (pydicom's
    multi-valued DS). *)
Inductive value : Type :=
| VNone
| VInt (n : Z)
| VStr (s : string)
| VSeq (l : list Qc).

(** What iterating over a [str] or over a sequence yields. *)
Inductive element : Type :=
| EChar (c : ascii)
| ENum (q : Qc).

(** ** Exceptions and warnings *)

Inductive message : Type :=
| MsgNoDataset
| MsgAttribute (property_name : string) (value initial_value : value)
| MsgNonOrthogonal (row_cosine column_cosine : vec3)
| MsgRowMagnitude (row_cosine : vec3)
| MsgColumnMagnitude (column_cosine : vec3)
| MsgMissingSlices.

Inductive exception : Type :=
| DicomImportException (m : message)
| AttributeError (name : string)
| IndexError
| TypeError
| ValueError.

Inductive warning : Type :=
| WarnNotQuiteOrthogonal (row_cosine column_cosine : vec3)
| WarnRowMagnitude (row_cosine : vec3)
| WarnColumnMagnitude (column_cosine : vec3)
| WarnNonUniformSpacing (slice_positions_diffs : list Qc).

(** The failure categories of the specification. *)
Inductive category : Type :=
| EmptyInput
| GeometryMismatch
| NonOrthogonalOrientation
| InvalidDirectionCosine
| MissingSlices.

Definition category_of (m : message) : category :=
  match m with
  | MsgNoDataset => EmptyInput
  | MsgAttribute _ _ _ => GeometryMismatch
  | MsgNonOrthogonal _ _ => NonOrthogonalOrientation
  | MsgRowMagnitude _ => InvalidDirectionCosine
  | MsgColumnMagnitude _ => InvalidDirectionCosine
  | MsgMissingSlices => MissingSlices
  end.

Inductive result (A : Type) : Type :=
| Ok (a : A)
| Err (e : exception).
Arguments Ok {A} a.
Arguments Err {A} e.

Definition rbind {A B : Type} (r : result A) (f : A -> result B) : result B :=
  match r with
  | Ok a => f a
  | Err e => Err e
  end.

(** A computation that logs warnings and then returns or raises. *)
Definition logged (A : Type) : Type := (list warning * result A)%type.

Definition ret {A : Type} (a : A) : logged A := ([], Ok a).
Definition raise {A : Type} (e : exception) : logged A := ([], Err e).
Definition warn (w : warning) : logged unit := ([w], Ok tt).
Definition lift {A : Type} (r : result A) : logged A := ([], r).

Definition bind {A B : Type} (m : logged A) (f : A -> logged B) : logged B :=
  match m with
  | (w, Ok a) => let '(w', r) := f a in (w ++ w', r)
  | (w, Err e) => (w, Err e)
  end.

Definition outcome {A : Type} (m : logged A) : result A := snd m.
Definition warnings {A : Type} (m : logged A) : list warning := fst m.

Declare Scope monad_scope.
Delimit Scope monad_scope with monad.
Notation "x <- m ;; f" := (rbind m (fun x => f))
  (at level 61, m at next level, right associativity) : monad_scope.
Notation "x <~ m ;; f" := (bind m (fun x => f))
  (at level 61, m at next level, right associativity) : monad_scope.
Notation "m ;;; f" := (bind m (fun _ => f))
  (at level 61, right associativity) : monad_scope.
Local Open Scope monad_scope.

(** [xs[0]]. *)
Definition first_item {A : Type} (xs : list A) : result A :=
  match xs with
  | x :: _ => Ok x
  | [] => Err IndexError
  end.

(** Reading an attribute that must be there: [dataset.Name]. *)
Definition attr {A : Type} (name : string) (field : option A) : result A :=
  match field with
  | Some a => Ok a
  | None => Err (AttributeError name)
  end.

(** ** Python operations on attribute values *)

Definition is_iterable (val : value) : bool :=
  match val with
  | VStr _ | VSeq _ => true
  | VNone | VInt _ => false
  end.

(** [len(val)]; [None] and [int] have no length. *)
Definition py_len (val : value) : result nat :=
  match val with
  | VStr s => Ok (String.length s)
  | VSeq l => Ok (List.length l)
  | VNone | VInt _ => Err TypeError
  end.

Definition py_iter (val : value) : list element :=
  match val with
  | VStr s => map EChar (list_ascii_of_string s)
  | VSeq l => map ENum l
  | VNone | VInt _ => []
  end.

Definition list_Qc_eqb (a b : list Qc) : bool :=
  (List.length a =? List.length b)%nat
  && forallb (fun p => Qc_eqb (fst p) (snd p)) (combine a b).

(** [a == b]. *)
Definition py_eq (a b : value) : bool :=
  match a, b with
  | VNone, VNone => true
  | VInt m, VInt n => (m =? n)%Z
  | VStr s, VStr t => (s =? t)%string
  | VSeq l, VSeq k => list_Qc_eqb l k
  | _, _ => false
  end.

(** [a != b] on what an iteration yields. *)
Definition element_ne (a b : element) : bool :=
  match a, b with
  | EChar c, EChar d => negb (c =? d)%char
  | ENum p, ENum q => negb (Qc_eqb p q)
  | _, _ => true
  end.

Definition digit_value (c : ascii) : option Z :=
  let n := Z.of_N (N_of_ascii c) in
  if ((48 <=? n) && (n <=? 57))%Z then Some (n - 48)%Z else None.

(** [float(val)]: a number converts to itself; a string of one character
    converts when the character is a decimal digit and raises [ValueError]
    otherwise. *)
Definition py_float (val : element) : result Qc :=
  match val with
  | ENum q => Ok q
  | EChar c =>
      match digit_value c with
      | Some d => Ok (Qc_of_Z d)
      | None => Err ValueError
      end
  end.

Definition is_float (val : element) : result bool :=
  match py_float val with
  | Ok _ => Ok true
  | Err ValueError => Ok false
  | Err e => Err e
  end.

(** ** Pixel buffers and datasets *)

(** An integer numpy dtype: signedness and width in bits. *)
Record dtype : Type := Dtype { dt_signed : bool; dt_bits : positive }.

Definition dtype_eqb (a b : dtype) : bool :=
  Bool.eqb (dt_signed a) (dt_signed b) && (dt_bits a =? dt_bits b)%positive.

(** [pixel_array]: a two-dimensional array, a list of rows. *)
Record ndarray : Type := Ndarray { arr_dtype : dtype; arr_rows : list (list Z) }.

(** The attributes of a pydicom dataset that the code reads.  An absent
    attribute is [None].  A rescale attribute that is present with the empty
    string as its value is [Some None]. *)
Record Dataset : Type := {
  Modality : option string;
  SOPClassUID : option string;
  SeriesInstanceUID : option string;
  Rows : option Z;
  Columns : option Z;
  ImageOrientationPatient : option (vec3 * vec3);
  PixelSpacing : option (Qc * Qc);
  PixelRepresentation : option Z;
  BitsAllocated : option Z;
  BitsStored : option Z;
  HighBit : option Z;
  ImagePositionPatient : option vec3;
  RescaleSlope : option (option Qc);
  RescaleIntercept : option (option Qc);
  pixel_array : ndarray
}.

Definition opt_value {A : Type} (f : A -> value) (o : option A) : value :=
  match o with
  | Some a => f a
  | None => VNone
  end.

Definition orientation_values (o : vec3 * vec3) : list Qc :=
  vec3_to_list (fst o) ++ vec3_to_list (snd o).

(** [getattr(dataset, property_name, None)]. *)
Definition getattr (dataset : Dataset) (property_name : string) : value :=
  if String.eqb property_name "Modality" then opt_value VStr (Modality dataset)
  else if String.eqb property_name "SOPClassUID" then opt_value VStr (SOPClassUID dataset)
  else if String.eqb property_name "SeriesInstanceUID"
    then opt_value VStr (SeriesInstanceUID dataset)
  else if String.eqb property_name "Rows" then opt_value VInt (Rows dataset)
  else if String.eqb property_name "Columns" then opt_value VInt (Columns dataset)
  else if String.eqb property_name "ImageOrientationPatient"
    then opt_value (fun o => VSeq (orientation_values o))
                   (ImageOrientationPatient dataset)
  else if String.eqb property_name "PixelSpacing"
    then opt_value (fun p => VSeq [fst p; snd p]) (PixelSpacing dataset)
  else if String.eqb property_name "PixelRepresentation"
    then opt_value VInt (PixelRepresentation dataset)
  else if String.eqb property_name "BitsAllocated"
    then opt_value VInt (BitsAllocated dataset)
  else if String.eqb property_name "BitsStored" then opt_value VInt (BitsStored dataset)
  else if String.eqb property_name "HighBit" then opt_value VInt (HighBit dataset)
  else VNone.

(** ** Attribute validation *)

Definition error_margin : Qc := tol_1e_3.

Fixpoint roughly_equal_loop (pairs : list (element * element)) : result bool :=
  match pairs with
  | [] => Ok true
  | (lst1_el, lst2_el) :: rest =>
      numeric <- is_float lst1_el;;
      if numeric then
        a <- py_float lst1_el;;
        b <- py_float lst2_el;;
        if negb (Qc_leb (a - error_margin) b && Qc_leb b (a + error_margin))
        then Ok false
        else roughly_equal_loop rest
      else
        if element_ne lst1_el lst2_el then Ok false
        else roughly_equal_loop rest
  end.

Definition _lsts_roughly_equal (lst1 lst2 : value) : result bool :=
  if negb (is_iterable lst1) then Ok (py_eq lst1 lst2)
  else
    n1 <- py_len lst1;;
    n2 <- py_len lst2;;
    if negb (n1 =? n2)%nat then Ok false
    else roughly_equal_loop (combine (py_iter lst1) (py_iter lst2)).

Fixpoint compare_with_initial (property_name : string) (initial_value : value)
    (others : list Dataset) : result unit :=
  match others with
  | [] => Ok tt
  | dataset :: rest =>
      let val := getattr dataset property_name in
      same <- _lsts_roughly_equal val initial_value;;
      if negb same
      then Err (DicomImportException
                  (MsgAttribute property_name val initial_value))
      else compare_with_initial property_name initial_value rest
  end.

Definition _slice_attribute_equal (slice_datasets : list Dataset)
    (property_name : string) : result unit :=
  if String.eqb property_name "SeriesInstanceUID" then Ok tt
  else
    first <- first_item slice_datasets;;
    compare_with_initial property_name (getattr first property_name)
                         (tl slice_datasets).

Definition invariant_properties : list string :=
  [ "Modality"; "SOPClassUID"; "SeriesInstanceUID"; "Rows"; "Columns";
    "ImageOrientationPatient"; "PixelSpacing"; "PixelRepresentation";
    "BitsAllocated"; "BitsStored"; "HighBit" ].

(** The loop [for property_name in invariant_properties]. *)
Fixpoint check_properties (slice_datasets : list Dataset)
    (names : list string) : result unit :=
  match names with
  | [] => Ok tt
  | property_name :: rest =>
      _ <- _slice_attribute_equal slice_datasets property_name;;
      check_properties slice_datasets rest
  end.

(** ** Orientation validation *)

Definition _almost_zero (val abs_tol : Qc) : bool := isclose val 0 abs_tol.

Definition _almost_one (val : Np.root) (abs_tol : Qc) : bool :=
  isclose_root val 1 abs_tol.

Definition _extract_cosines (image_orientation : vec3 * vec3)
    : vec3 * vec3 * vec3 :=
  let row_cosine := fst image_orientation in
  let column_cosine := snd image_orientation in
  let slice_cosine := Np.cross row_cosine column_cosine in
  (row_cosine, column_cosine, slice_cosine).

Definition check_orthogonal (row_cosine column_cosine : vec3) : logged unit :=
  if negb (_almost_zero (Np.dot row_cosine column_cosine) tol_1e_4)
  then raise (DicomImportException (MsgNonOrthogonal row_cosine column_cosine))
  else if negb (_almost_zero (Np.dot row_cosine column_cosine) tol_1e_8)
  then warn (WarnNotQuiteOrthogonal row_cosine column_cosine)
  else ret tt.

Definition check_magnitude (cosine : vec3) (fatal : message) (w : warning)
    : logged unit :=
  if negb (_almost_one (Np.norm cosine) tol_1e_4)
  then raise (DicomImportException fatal)
  else if negb (_almost_one (Np.norm cosine) tol_1e_8)
  then warn w
  else ret tt.

Definition _validate_image_orientation (image_orientation : vec3 * vec3)
    : logged unit :=
  let '(row_cosine, column_cosine, _) := _extract_cosines image_orientation in
  check_orthogonal row_cosine column_cosine;;;
  check_magnitude row_cosine (MsgRowMagnitude row_cosine)
                  (WarnRowMagnitude row_cosine);;;
  check_magnitude column_cosine (MsgColumnMagnitude column_cosine)
                  (WarnColumnMagnitude column_cosine).

(** ** Sorting *)

(** [sorted(xs)] with Python's [<], which may raise.  Python's sort is stable
    and uses only [<]; it is modelled as a stable insertion sort that places
    each element, in input order, before the first element it is less than,
    and that raises as soon as a comparison raises. *)
Section PySorted.
Context {A : Type} (lt : A -> A -> result bool).

Fixpoint insert (x : A) (acc : list A) : result (list A) :=
  match acc with
  | [] => Ok [x]
  | y :: rest =>
      b <- lt x y;;
      if b then Ok (x :: y :: rest)
      else (r <- insert x rest;; Ok (y :: r))
  end.

Fixpoint sorted_from (acc xs : list A) : result (list A) :=
  match xs with
  | [] => Ok acc
  | x :: rest => acc' <- insert x acc;; sorted_from acc' rest
  end.

Definition py_sorted (xs : list A) : result (list A) := sorted_from [] xs.
End PySorted.

(** [<] on floats never raises. *)
Definition float_lt (x y : Qc) : result bool := Ok (Qc_ltb x y).

Definition vec3_eq_dec (a b : vec3) : {a = b} + {a <> b}.
Proof. decide equality; apply Qc_eq_dec. Defined.

Definition dtype_eq_dec (a b : dtype) : {a = b} + {a <> b}.
Proof. decide equality; [apply Pos.eq_dec | apply bool_dec]. Defined.

Definition ndarray_eq_dec (a b : ndarray) : {a = b} + {a <> b}.
Proof.
  decide equality;
    [apply list_eq_dec, list_eq_dec, Z.eq_dec | apply dtype_eq_dec].
Defined.

Definition Dataset_eq_dec (a b : Dataset) : {a = b} + {a <> b}.
Proof.
  decide equality;
    try apply ndarray_eq_dec;
    repeat (decide equality;
            try apply Qc_eq_dec; try apply Z.eq_dec; try apply string_dec;
            try apply vec3_eq_dec).
Defined.

(** [a == b] on datasets: pydicom compares the data elements. *)
Definition Dataset_eqb (a b : Dataset) : bool :=
  if Dataset_eq_dec a b then true else false.

(** [x < y] on the tuples [(position, dataset)] that [zip] builds.  Python
    compares tuples at the first index where the items differ under [==];
    datasets define [==] but no ordering, so [<] on two datasets that are
    not equal raises [TypeError]. *)
Definition tuple_lt (x y : Qc * Dataset) : result bool :=
  if negb (Qc_eqb (fst x) (fst y)) then Ok (Qc_ltb (fst x) (fst y))
  else if negb (Dataset_eqb (snd x) (snd y)) then Err TypeError
  else Ok false.

(** ** Slice positions and spacing *)

Fixpoint map_result {A B : Type} (f : A -> result B) (xs : list A)
    : result (list B) :=
  match xs with
  | [] => Ok []
  | x :: rest => y <- f x;; ys <- map_result f rest;; Ok (y :: ys)
  end.

Definition _slice_positions (slice_datasets : list Dataset)
    : result (list Qc) :=
  first <- first_item slice_datasets;;
  image_orientation <-
    attr "ImageOrientationPatient" (ImageOrientationPatient first);;
  let '(_, _, slice_cosine) := _extract_cosines image_orientation in
  map_result
    (fun d =>
       position <- attr "ImagePositionPatient" (ImagePositionPatient d);;
       Ok (Np.dot slice_cosine position))
    slice_datasets.

Definition _check_for_missing_slices (slice_positions : list Qc)
    : logged unit :=
  sorted_positions <~ lift (py_sorted float_lt slice_positions);;
  let slice_positions_diffs := Np.diff sorted_positions in
  reference <~ lift (first_item slice_positions_diffs);;
  (if negb (Np.allclose slice_positions_diffs reference tol_1e_5)
   then warn (WarnNonUniformSpacing slice_positions_diffs)
   else ret tt);;;
  reference' <~ lift (first_item slice_positions_diffs);;
  if negb (Np.allclose slice_positions_diffs reference' tol_1e_1)
  then raise (DicomImportException MsgMissingSlices)
  else ret tt.

Definition _slice_spacing (slice_datasets : list Dataset) : result Qc :=
  if (1 <? List.length slice_datasets)%nat then
    slice_positions <- _slice_positions slice_datasets;;
    sorted_positions <- py_sorted float_lt slice_positions;;
    Ok (Np.mean (Np.diff sorted_positions))
  else Ok 0.

Definition _sort_by_slice_spacing (slice_datasets : list Dataset)
    : result (list Dataset) :=
  slice_spacing <- _slice_positions slice_datasets;;
  pairs <- py_sorted tuple_lt (combine slice_spacing slice_datasets);;
  Ok (map snd pairs).

Definition _validate_slices_form_uniform_grid (slice_datasets : list Dataset)
    : logged unit :=
  lift (check_properties slice_datasets invariant_properties);;;
  image_orientation <~
    lift (first <- first_item slice_datasets;;
          attr "ImageOrientationPatient" (ImageOrientationPatient first));;
  _validate_image_orientation image_orientation;;;
  slice_positions <~ lift (_slice_positions slice_datasets);;
  _check_for_missing_slices slice_positions.

(** ** Merging the pixel arrays *)

(** The assembled volume.  [planes] lists [voxels[:, :, k]] for
    [k = 0, 1, ...]; each plane is indexed by column and then by row. *)
Inductive voxels : Type :=
| VoxelsNative (dt : dtype) (shape : nat * nat * nat)
    (planes : list (list (list Z)))
| VoxelsFloat32 (shape : nat * nat * nat) (planes : list (list (list Qc))).

Definition _requires_rescaling (dataset : Dataset) : bool :=
  match RescaleSlope dataset with
  | Some (Some _) => true
  | Some None | None =>
      match RescaleIntercept dataset with
      | Some (Some _) => true
      | Some None | None => false
      end
  end.

(** [getattr(dataset, name, default)] followed by
    [float(x) if x != '' else default]. *)
Definition rescale_value (field : option (option Qc)) (default : Qc) : Qc :=
  match field with
  | Some (Some x) => x
  | Some None => default
  | None => default
  end.

Definition shape2 {T : Type} (a : list (list T)) : nat * nat :=
  (List.length a, List.length (hd [] a)).

(** [a.T] for a two-dimensional array. *)
Definition transpose {T : Type} (default : T) (a : list (list T))
    : list (list T) :=
  map (fun j => map (fun row => nth j row default) a)
      (seq 0 (snd (shape2 a))).

(** Numpy broadcasting of one axis of length [len] to length [n]. *)
Definition broadcast_axis {T : Type} (n len : nat) (l : list T)
    : result (list T) :=
  if (len =? n)%nat then Ok l
  else if (len =? 1)%nat
       then match l with
            | x :: _ => Ok (repeat x n)
            | [] => Err ValueError
            end
       else Err ValueError.

(** The value stored by [voxels[:, :, k] = a] in a volume whose first two
    axes are [num_columns] and [num_rows]: [a] broadcast to that shape. *)
Definition assigned_plane {T : Type} (num_columns num_rows : nat)
    (a : list (list T)) : result (list (list T)) :=
  let '(n0, n1) := shape2 a in
  rows <- map_result (broadcast_axis num_rows n1) a;;
  broadcast_axis num_columns n0 rows.

(** Conversion of an integer to an integer dtype on assignment. *)
Definition wrap (dt : dtype) (z : Z) : Z :=
  let m := Z.pow_pos 2 (dt_bits dt) in
  if dt_signed dt then (z + m / 2) mod m - m / 2 else z mod m.

Definition cast (src dst : dtype) (z : Z) : Z :=
  if dtype_eqb src dst then z else wrap dst z.

(** [np.empty((a, b, c), ...)] refuses a negative dimension. *)
Definition dimension (n : Z) : result nat :=
  if (n <? 0)%Z then Err ValueError else Ok (Z.to_nat n).

Definition rescaled_plane (dataset : Dataset) : list (list Qc) :=
  let slope := rescale_value (RescaleSlope dataset) 1 in
  let intercept := rescale_value (RescaleIntercept dataset) 0 in
  map (map (fun v => Qc_of_Z v * slope + intercept))
      (transpose 0%Z (arr_rows (pixel_array dataset))).

Definition native_plane (dt : dtype) (dataset : Dataset) : list (list Z) :=
  map (map (cast (arr_dtype (pixel_array dataset)) dt))
      (transpose 0%Z (arr_rows (pixel_array dataset))).

Definition _merge_slice_pixel_arrays (slice_datasets : list Dataset)
    : result voxels :=
  first_dataset <- first_item slice_datasets;;
  num_rows <- attr "Rows" (Rows first_dataset);;
  num_columns <- attr "Columns" (Columns first_dataset);;
  let num_slices := List.length slice_datasets in
  sorted_slice_datasets <- _sort_by_slice_spacing slice_datasets;;
  if existsb _requires_rescaling sorted_slice_datasets then
    c <- dimension num_columns;;
    r <- dimension num_rows;;
    planes <- map_result (fun dataset =>
                            assigned_plane c r (rescaled_plane dataset))
                         sorted_slice_datasets;;
    Ok (VoxelsFloat32 (c, r, num_slices) planes)
  else
    let dt := arr_dtype (pixel_array first_dataset) in
    c <- dimension num_columns;;
    r <- dimension num_rows;;
    planes <- map_result (fun dataset =>
                            assigned_plane c r (native_plane dt dataset))
                         sorted_slice_datasets;;
    Ok (VoxelsNative dt (c, r, num_slices) planes).

(** ** The affine transform *)

Definition matrix : Type := list (list Qc).

(** [np.identity(4)]. *)
Definition identity4 : matrix :=
  [ [1; 0; 0; 0]; [0; 1; 0; 0]; [0; 0; 1; 0]; [0; 0; 0; 1] ].

Fixpoint replace_nth {T : Type} (j : nat) (x : T) (l : list T) : list T :=
  match l, j with
  | [], _ => []
  | _ :: rest, O => x :: rest
  | y :: rest, S j' => y :: replace_nth j' x rest
  end.

(** [m[:3, j] = v]. *)
Definition set_column (j : nat) (v : vec3) (m : matrix) : matrix :=
  match m with
  | r0 :: r1 :: r2 :: rest =>
      replace_nth j (v0 v) r0 :: replace_nth j (v1 v) r1
        :: replace_nth j (v2 v) r2 :: rest
  | _ => m
  end.

(** [m[:, j]]. *)
Definition column (j : nat) (m : matrix) : list Qc :=
  map (fun row => nth j row 0) m.

Definition _ijk_to_patient_xyz_transform_matrix
    (slice_datasets : list Dataset) : result matrix :=
  sorted_slice_datasets <- _sort_by_slice_spacing slice_datasets;;
  first_dataset <- first_item sorted_slice_datasets;;
  image_orientation <-
    attr "ImageOrientationPatient" (ImageOrientationPatient first_dataset);;
  let '(row_cosine, column_cosine, slice_cosine) :=
    _extract_cosines image_orientation in
  spacing <- attr "PixelSpacing" (PixelSpacing first_dataset);;
  let '(row_spacing, column_spacing) := spacing in
  slice_spacing <- _slice_spacing slice_datasets;;
  let transform := identity4 in
  let transform := set_column 0 (Np.scale row_cosine column_spacing) transform in
  let transform := set_column 1 (Np.scale column_cosine row_spacing) transform in
  let transform := set_column 2 (Np.scale slice_cosine slice_spacing) transform in
  position <-
    attr "ImagePositionPatient" (ImagePositionPatient first_dataset);;
  let transform := set_column 3 position transform in
  Ok transform.

(** ** The entry operation *)

Definition combine_slices (slice_datasets : list Dataset)
    : logged (voxels * matrix) :=
  if (List.length slice_datasets =? 0)%nat
  then raise (DicomImportException MsgNoDataset)
  else
    _validate_slices_form_uniform_grid slice_datasets;;;
    vox <~ lift (_merge_slice_pixel_arrays slice_datasets);;
    transform <~ lift (_ijk_to_patient_xyz_transform_matrix slice_datasets);;
    ret (vox, transform).

(** ** Vocabulary of the properties *)

(** The real number that a rational denotes. *)
Definition Qc2R (x : Qc) : R := Q2R x.



(** The order in which [tuple_lt] arranges the pairs that it can compare. *)
Definition tuple_le (x y : Qc * Dataset) : Prop := fst x < fst y \/ x = y.

(** ** Example series *)

Definition uint16 : dtype := Dtype false 16.

(** An axial slice of two rows and three columns at [position], with unit
    pixel spacing and no rescale attributes. *)
Definition axial_slice (position : vec3) (pixels : list (list Z)) : Dataset :=
  {| Modality := Some "CT";
     SOPClassUID := Some "1.2.840.10008.5.1.4.1.1.2";
     SeriesInstanceUID := Some "1.2.826.0.1.3680043.2.1125.1";
     Rows := Some 2%Z;
     Columns := Some 3%Z;
     ImageOrientationPatient := Some (Vec3 1 0 0, Vec3 0 1 0);
     PixelSpacing := Some (1, 1);
     PixelRepresentation := Some 0%Z;
     BitsAllocated := Some 16%Z;
     BitsStored := Some 16%Z;
     HighBit := Some 15%Z;
     ImagePositionPatient := Some position;
     RescaleSlope := None;
     RescaleIntercept := None;
     pixel_array := Ndarray uint16 pixels |}.

Definition at_z (z : Z) : vec3 := Vec3 0 0 (Qc_of_Z z).

Definition slice_a : Dataset := axial_slice (at_z 0) [[1; 2; 3]; [4; 5; 6]]%Z.
Definition slice_b : Dataset := axial_slice (at_z 5) [[7; 8; 9]; [10; 11; 12]]%Z.

(** A second acquisition at the position of [slice_a]. *)
Definition slice_a_echo : Dataset :=
  axial_slice (at_z 0) [[21; 22; 23]; [24; 25; 26]]%Z.

(** The exceptions that are not [DicomImportException]: those of indexing,
    attribute access, comparison and array construction. *)
Definition lookup_error (e : exception) : Prop :=
  match e with
  | DicomImportException _ => False
  | _ => True
  end.

(** ** Spacing tests *)

(** The test that the code applies to the position differences: some
    difference deviates from the first difference by more than [tol] times
    the magnitude of the first difference. *)
Definition deviates_from_first (tol : Qc) (diffs : list Qc) : bool :=
  match diffs with
  | [] => false
  | reference :: _ =>
      existsb (fun d => Qc_ltb (tol * py_abs reference) (py_abs (d - reference)))
              diffs
  end.


(** The positions of a series and their sorted differences, when they can
    be computed. *)
Definition positions_of (ds : list Dataset) : list Qc :=
  match _slice_positions ds with
  | Ok positions => positions
  | Err _ => []
  end.

Definition position_diffs (ds : list Dataset) : list Qc :=
  match py_sorted float_lt (positions_of ds) with
  | Ok sorted_positions => Np.diff sorted_positions
  | Err _ => []
  end.

(** The checks that precede the spacing check: attribute validation and
    validation of the orientation of the first slice of the input. *)
Definition passes_earlier_checks (ds : list Dataset) : Prop :=
  check_properties ds invariant_properties = Ok tt
  /\ exists first io,
       first_item ds = Ok first
       /\ ImageOrientationPatient first = Some io
       /\ outcome (_validate_image_orientation io) = Ok tt.



(** ** Attribute comparison, as the specification words it *)

(** Two numbers agree within the absolute tolerance 0.001. *)
Definition within_margin (a b : Qc) : bool :=
  Qc_leb (py_abs (a - b)) error_margin.

(** Numeric values, a scalar or a sequence, agree element-wise within the
    tolerance; other values agree when they are equal. *)
Definition values_agree (a b : value) : bool :=
  match a, b with
  | VInt m, VInt n => within_margin (Qc_of_Z m) (Qc_of_Z n)
  | VSeq l, VSeq k =>
      (List.length l =? List.length k)%nat
      && forallb (fun p => within_margin (fst p) (snd p)) (combine l k)
  | _, _ => py_eq a b
  end.

(** Values of one attribute read from two datasets are of one Python type,
    or one of them is [None]. *)
Definition same_kind (a b : value) : Prop :=
  match a, b with
  | VNone, _ | _, VNone => True
  | VInt _, VInt _ | VStr _, VStr _ | VSeq _, VSeq _ => True
  | _, _ => False
  end.

(** The same dataset with another series identifier. *)
Definition with_series_uid (uid : option string) (d : Dataset) : Dataset :=
  {| Modality := Modality d;
     SOPClassUID := SOPClassUID d;
     SeriesInstanceUID := uid;
     Rows := Rows d;
     Columns := Columns d;
     ImageOrientationPatient := ImageOrientationPatient d;
     PixelSpacing := PixelSpacing d;
     PixelRepresentation := PixelRepresentation d;
     BitsAllocated := BitsAllocated d;
     BitsStored := BitsStored d;
     HighBit := HighBit d;
     ImagePositionPatient := ImagePositionPatient d;
     RescaleSlope := RescaleSlope d;
     RescaleIntercept := RescaleIntercept d;
     pixel_array := pixel_array d |}.

Definition differ_only_in_series_uid (d d' : Dataset) : Prop :=
  exists uid, d' = with_series_uid uid d.

(** Two slices of different series: [slice_b] with another identifier. *)
Definition slice_b_other_series : Dataset :=
  with_series_uid (Some "1.2.826.0.1.3680043.2.1125.2") slice_b.

(** ** The volume and its slices *)

(** The planes of [vox] are the values assigned, in order, for [slices]. *)
Definition stacked_from (vox : voxels) (slices : list Dataset) : Prop :=
  match vox with
  | VoxelsNative dt (c, r, _) planes =>
      Forall2 (fun d plane => assigned_plane c r (native_plane dt d) = Ok plane)
              slices planes
  | VoxelsFloat32 (c, r, _) planes =>
      Forall2 (fun d plane => assigned_plane c r (rescaled_plane d) = Ok plane)
              slices planes
  end.

(** What the entry operation returned, for a series that it accepts. *)
Definition returned (ds : list Dataset) : voxels * matrix :=
  match outcome (combine_slices ds) with
  | Ok r => r
  | Err _ => (VoxelsFloat32 (0, 0, 0)%nat [], [])
  end.

(** A two-dimensional array of [r] rows of [c] entries. *)
Definition has_shape {T : Type} (r c : nat) (a : list (list T)) : Prop :=
  List.length a = r /\ Forall (fun row => List.length row = c) a.

(** The data model of the specification for pixel buffers: the element
    type of the buffer of a slice is determined by [BitsAllocated] and
    [PixelRepresentation], and the buffer has [Rows] rows of [Columns]
    samples. *)
Definition pixel_types_determined (ds : list Dataset) : Prop :=
  forall d d', In d ds -> In d' ds ->
    BitsAllocated d = BitsAllocated d' ->
    PixelRepresentation d = PixelRepresentation d' ->
    arr_dtype (pixel_array d) = arr_dtype (pixel_array d').

Definition pixel_buffers_conform (ds : list Dataset) : Prop :=
  (forall d, In d ds ->
     exists r c, Rows d = Some (Z.of_nat r) /\ Columns d = Some (Z.of_nat c)
                 /\ has_shape r c (arr_rows (pixel_array d)))
  /\ pixel_types_determined ds.

(** All slices carry the same orientation and the same pixel spacing, not
    only values within the tolerance of the attribute validator. *)
Definition uniform_geometry (ds : list Dataset) : Prop :=
  forall d d', In d ds -> In d' ds ->
    ImageOrientationPatient d = ImageOrientationPatient d'
    /\ PixelSpacing d = PixelSpacing d'.

(** The sort key of a slice under the orientation [io]. *)
Definition slice_key (io : vec3 * vec3) (d : Dataset) : Qc :=
  match ImagePositionPatient d with
  | Some position => Np.dot (Np.cross (fst io) (snd io)) position
  | None => 0
  end.

(** A slice of the series of [slice_a] at (0, 256, 5) whose column cosine
    is (0, 1, 1/2048): it differs from (0, 1, 0) by less than the tolerance
    0.001 of the attribute validator. *)
Definition tilted_slice : Dataset :=
  {| Modality := Modality slice_a;
     SOPClassUID := SOPClassUID slice_a;
     SeriesInstanceUID := SeriesInstanceUID slice_a;
     Rows := Rows slice_a;
     Columns := Columns slice_a;
     ImageOrientationPatient := Some (Vec3 1 0 0, Vec3 0 1 (Q2Qc (1 # 2048)));
     PixelSpacing := PixelSpacing slice_a;
     PixelRepresentation := PixelRepresentation slice_a;
     BitsAllocated := BitsAllocated slice_a;
     BitsStored := BitsStored slice_a;
     HighBit := HighBit slice_a;
     ImagePositionPatient := Some (Vec3 0 (Qc_of_Z 256) (Qc_of_Z 5));
     RescaleSlope := None;
     RescaleIntercept := None;
     pixel_array := Ndarray uint16 [[7; 8; 9]; [10; 11; 12]]%Z |}.

(** A slice carries a rescale slope or intercept: the attribute is present
    and its value is not empty. *)
Definition carries_rescale (d : Dataset) : Prop :=
  (exists slope, RescaleSlope d = Some (Some slope))
  \/ (exists intercept, RescaleIntercept d = Some (Some intercept)).

(** The slope and intercept in force for a slice: 1 and 0 stand in for an
    attribute that is absent or empty. *)
Definition slope_of (d : Dataset) : Qc :=
  match RescaleSlope d with
  | Some (Some slope) => slope
  | _ => 1
  end.

Definition intercept_of (d : Dataset) : Qc :=
  match RescaleIntercept d with
  | Some (Some intercept) => intercept
  | _ => 0
  end.

(** [pixel_array[j, i]] of a slice, and [voxels[i, j, k]] of a volume given
    by its planes. *)
Definition pixel (d : Dataset) (j i : nat) : Z :=
  nth i (nth j (arr_rows (pixel_array d)) []) 0%Z.

Definition voxel {T : Type} (default : T) (planes : list (list (list T)))
    (i j k : nat) : T :=
  nth j (nth i (nth k planes []) []) default.

(** [slice_a] and [slice_b] with rescale attributes: [slice_b] carries a
    slope and an intercept, [slice_a] an empty slope. *)
Definition with_rescale (slope intercept : option (option Qc)) (d : Dataset)
    : Dataset :=
  {| Modality := Modality d;
     SOPClassUID := SOPClassUID d;
     SeriesInstanceUID := SeriesInstanceUID d;
     Rows := Rows d;
     Columns := Columns d;
     ImageOrientationPatient := ImageOrientationPatient d;
     PixelSpacing := PixelSpacing d;
     PixelRepresentation := PixelRepresentation d;
     BitsAllocated := BitsAllocated d;
     BitsStored := BitsStored d;
     HighBit := HighBit d;
     ImagePositionPatient := ImagePositionPatient d;
     RescaleSlope := slope;
     RescaleIntercept := intercept;
     pixel_array := pixel_array d |}.

Definition rescaled_series : list Dataset :=
  [ with_rescale (Some (Some (Qc_of_Z 2))) (Some (Some (Qc_of_Z 100))) slice_b;
    with_rescale (Some None) None slice_a ].

(** ** Evenly spaced positions *)

(** [n] positions that start at [start] and advance by [step]. *)
Fixpoint evenly_spaced (start step : Qc) (n : nat) : list Qc :=
  match n with
  | O => []
  | S n' => start :: evenly_spaced (start + step) step n'
  end.

(** ** Comparison of strings, character by character *)

(** The first position at which two sequences of characters differ: the
    character of the first and that of the second. *)
Fixpoint first_difference (l k : list ascii) : option (ascii * ascii) :=
  match l, k with
  | c :: l', d :: k' =>
      if (c =? d)%char then first_difference l' k' else Some (c, d)
  | _, _ => None
  end.

(** [float] accepts the character. *)
Definition is_digit (c : ascii) : bool :=
  match digit_value c with
  | Some _ => true
  | None => false
  end.

(** The value is [None]: the attribute is absent. *)
Definition is_none (v : value) : bool :=
  match v with
  | VNone => true
  | _ => false
  end.

(** The same dataset with another pixel spacing, or without one. *)
Definition with_pixel_spacing (spacing : option (Qc * Qc)) (d : Dataset)
    : Dataset :=
  {| Modality := Modality d;
     SOPClassUID := SOPClassUID d;
     SeriesInstanceUID := SeriesInstanceUID d;
     Rows := Rows d;
     Columns := Columns d;
     ImageOrientationPatient := ImageOrientationPatient d;
     PixelSpacing := spacing;
     PixelRepresentation := PixelRepresentation d;
     BitsAllocated := BitsAllocated d;
     BitsStored := BitsStored d;
     HighBit := HighBit d;
     ImagePositionPatient := ImagePositionPatient d;
     RescaleSlope := RescaleSlope d;
     RescaleIntercept := RescaleIntercept d;
     pixel_array := pixel_array d |}.

(** ** Presence of attributes *)

Definition present {A : Type} (field : option A) : bool :=
  match field with
  | Some _ => true
  | None => false
  end.

(** [hasattr(dataset, name)]. *)
Definition hasattr (dataset : Dataset) (name : string) : bool :=
  if String.eqb name "Modality" then present (Modality dataset)
  else if String.eqb name "SOPClassUID" then present (SOPClassUID dataset)
  else if String.eqb name "SeriesInstanceUID"
    then present (SeriesInstanceUID dataset)
  else if String.eqb name "Rows" then present (Rows dataset)
  else if String.eqb name "Columns" then present (Columns dataset)
  else if String.eqb name "ImageOrientationPatient"
    then present (ImageOrientationPatient dataset)
  else if String.eqb name "PixelSpacing" then present (PixelSpacing dataset)
  else if String.eqb name "PixelRepresentation"
    then present (PixelRepresentation dataset)
  else if String.eqb name "BitsAllocated" then present (BitsAllocated dataset)
  else if String.eqb name "BitsStored" then present (BitsStored dataset)
  else if String.eqb name "HighBit" then present (HighBit dataset)
  else if String.eqb name "ImagePositionPatient"
    then present (ImagePositionPatient dataset)
  else if String.eqb name "RescaleSlope" then present (RescaleSlope dataset)
  else if String.eqb name "RescaleIntercept"
    then present (RescaleIntercept dataset)
  else if String.eqb name "pixel_array" then true
  else false.

(** The attributes that the code reads with [dataset.Name], which raises
    [AttributeError] when the attribute is absent ([pixel_array], which a
    [Dataset] of this embedding always has, apart); the others are read
    with [getattr] and a default. *)
Definition accessed_attributes : list string :=
  [ "ImageOrientationPatient"; "ImagePositionPatient"; "Rows"; "Columns";
    "PixelSpacing" ].

(** What an exception raised for a non-empty series tells about the
    series. *)
Definition error_cause (ds : list Dataset) (e : exception) : Prop :=
  match e with
  | DicomImportException m => m <> MsgNoDataset
  | AttributeError name =>
      In name accessed_attributes
      /\ exists d, In d ds /\ hasattr d name = false
  | IndexError => False
  | TypeError | ValueError => True
  end.

(** The same dataset with another position, or without one. *)
Definition with_position (position : option vec3) (d : Dataset) : Dataset :=
  {| Modality := Modality d;
     SOPClassUID := SOPClassUID d;
     SeriesInstanceUID := SeriesInstanceUID d;
     Rows := Rows d;
     Columns := Columns d;
     ImageOrientationPatient := ImageOrientationPatient d;
     PixelSpacing := PixelSpacing d;
     PixelRepresentation := PixelRepresentation d;
     BitsAllocated := BitsAllocated d;
     BitsStored := BitsStored d;
     HighBit := HighBit d;
     ImagePositionPatient := position;
     RescaleSlope := RescaleSlope d;
     RescaleIntercept := RescaleIntercept d;
     pixel_array := pixel_array d |}.



(** ** The action of the transform *)






(** * Properties *)

(** ** Rationals as real numbers *)
Lemma Qc2R_plus x y : Qc2R (x + y) = (Qc2R x + Qc2R y)%R.
Proof. unfold Qc2R. transitivity (Q2R (Qplus x y)); [apply Qeq_eqR, Qred_correct | apply Q2R_plus]. Qed.
Lemma Qc2R_mult x y : Qc2R (x * y) = (Qc2R x * Qc2R y)%R.
Proof. unfold Qc2R. transitivity (Q2R (Qmult x y)); [apply Qeq_eqR, Qred_correct | apply Q2R_mult]. Qed.
Lemma Qc2R_opp x : Qc2R (- x) = (- Qc2R x)%R.
Proof. unfold Qc2R. transitivity (Q2R (Qopp x)); [apply Qeq_eqR, Qred_correct | apply Q2R_opp]. Qed.
Lemma Qc2R_minus x y : Qc2R (x - y) = (Qc2R x - Qc2R y)%R.
Proof. unfold Qcminus. rewrite Qc2R_plus, Qc2R_opp. reflexivity. Qed.
Lemma Qc2R_0 : Qc2R 0 = 0%R.
Proof. unfold Qc2R. simpl. unfold Q2R. simpl. lra. Qed.
Lemma Qc_leb_Rle x y : Qc_leb x y = true <-> (Qc2R x <= Qc2R y)%R.
Proof. unfold Qc_leb, Qc2R. rewrite Qle_bool_iff. split; [apply Qle_Rle | apply Rle_Qle]. Qed.
Lemma Rabs_le_iff a b : (Rabs a <= b)%R <-> (- b <= a <= b)%R.
Proof. split; [unfold Rabs; destruct (Rcase_abs a); lra | apply Rabs_le]. Qed.
Lemma py_abs_R x : Qc2R (py_abs x) = Rabs (Qc2R x).
Proof.
  unfold py_abs. destruct (Qc_leb 0 x) eqn:E.
  - apply Qc_leb_Rle in E. rewrite Qc2R_0 in E. rewrite Rabs_right; lra.
  - assert (~ (Qc2R 0 <= Qc2R x)%R) as H by (rewrite <- Qc_leb_Rle; congruence).
    rewrite Qc2R_0 in H. rewrite Qc2R_opp, Rabs_left; lra.
Qed.


Lemma iff_true_false (b : bool) (P : Prop) : (b = true <-> P) -> b = false -> ~ P.
Proof. destruct b; intuition congruence. Qed.

(** ** Orientation validation *)


(** ** The monads *)

Lemma outcome_bind {A B : Type} (m : logged A) (f : A -> logged B) :
  outcome (bind m f) =
  match outcome m with
  | Ok a => outcome (f a)
  | Err e => Err e
  end.
Proof.
  destruct m as [w [a | e]]; cbv [bind outcome snd]; [| reflexivity].
  destruct (f a); reflexivity.
Qed.

Lemma warnings_bind {A B : Type} (m : logged A) (f : A -> logged B) :
  warnings (bind m f) =
  match outcome m with
  | Ok a => warnings m ++ warnings (f a)
  | Err e => warnings m
  end.
Proof.
  destruct m as [w [a | e]]; cbv [bind outcome warnings fst snd];
    [| reflexivity].
  destruct (f a); reflexivity.
Qed.

Lemma outcome_lift {A : Type} (r : result A) : outcome (lift r) = r.
Proof. reflexivity. Qed.

Lemma warnings_lift {A : Type} (r : result A) : warnings (lift r) = [].
Proof. reflexivity. Qed.

(** ** A series of one slice *)

Lemma check_properties_single (d : Dataset) (names : list string) :
  check_properties [d] names = Ok tt.
Proof.
  induction names as [| name names IH]; [reflexivity |].
  cbv [check_properties _slice_attribute_equal]. fold check_properties.
  destruct (String.eqb name "SeriesInstanceUID"); cbv [rbind first_item tl
    compare_with_initial]; exact IH.
Qed.

Lemma single_slice_positions_check (p : Qc) :
  outcome (_check_for_missing_slices [p]) = Err IndexError.
Proof. reflexivity. Qed.

Lemma single_slice_rejected (d : Dataset) :
  exists e, outcome (_validate_slices_form_uniform_grid [d]) = Err e.
Proof.
  unfold _validate_slices_form_uniform_grid.
  rewrite !outcome_bind, !outcome_lift, check_properties_single.
  unfold _slice_positions. cbv [first_item rbind].
  destruct (ImageOrientationPatient d) as [io |]; cbv [attr];
    [| eexists; reflexivity].
  rewrite !outcome_bind, !outcome_lift.
  destruct (outcome (_validate_image_orientation io)) as [[] | e];
    [| eexists; reflexivity].
  cbv [_extract_cosines map_result rbind].
  destruct (ImagePositionPatient d) as [position |];
    [| eexists; reflexivity].
  rewrite single_slice_positions_check. eexists; reflexivity.
Qed.

Lemma single_slice_fails (d : Dataset) :
  exists e, outcome (combine_slices [d]) = Err e.
Proof.
  unfold combine_slices.
  change (List.length [d] =? 0)%nat with false. cbv iota.
  rewrite outcome_bind.
  destruct (single_slice_rejected d) as [e ->]. eexists; reflexivity.
Qed.

(** C2.  No series of one slice is accepted: the spacing check indexes the
    empty array of position differences.  On the well-formed slice
    [slice_a] the entry operation raises [IndexError], although the spacing
    function itself returns 0.0 for a series of one slice. *)
Theorem single_slice_index_error :
  (forall d, exists e, outcome (combine_slices [d]) = Err e)
  /\ outcome (combine_slices [slice_a]) = Err IndexError
  /\ (forall d, _slice_spacing [d] = Ok 0).
Proof.
  split; [exact single_slice_fails |].
  split; [vm_compute; reflexivity | intros d; reflexivity].
Qed.

(** ** Sorting *)

Section SortedFacts.
Context {A : Type} (lt : A -> A -> result bool) (R : A -> A -> Prop).
Hypothesis lt_true : forall x y, lt x y = Ok true -> R x y.
Hypothesis lt_false : forall x y, lt x y = Ok false -> R y x.
Hypothesis lt_defined : forall x y, R x y \/ R y x -> exists b, lt x y = Ok b.
Hypothesis R_refl : forall x, R x x.
Hypothesis R_trans : forall x y z, R x y -> R y z -> R x z.
Hypothesis R_antisym : forall x y, R x y -> R y x -> x = y.

Lemma insert_perm (x : A) (acc r : list A) :
  insert lt x acc = Ok r -> Permutation (x :: acc) r.
Proof.
  revert r. induction acc as [| y rest IH]; intros r H; cbn in H.
  - injection H as <-. reflexivity.
  - destruct (lt x y) as [[] | e]; cbn in H; try discriminate.
    + injection H as <-. reflexivity.
    + destruct (insert lt x rest) as [r' |] eqn:E; cbn in H; try discriminate.
      injection H as <-. rewrite perm_swap. constructor. apply IH. reflexivity.
Qed.

Lemma insert_sorted (x : A) (acc r : list A) :
  StronglySorted R acc -> insert lt x acc = Ok r -> StronglySorted R r.
Proof.
  revert r. induction acc as [| y rest IH]; intros r S H; cbn in H.
  - injection H as <-. constructor; constructor.
  - destruct (lt x y) as [[] | e] eqn:L; cbn in H; try discriminate.
    + injection H as <-. apply lt_true in L. constructor; [exact S |].
      inversion S as [| ? ? S' F]; subst. constructor; [exact L |].
      eapply Forall_impl; [| exact F]. intros z Hz. eauto.
    + destruct (insert lt x rest) as [r' |] eqn:E; cbn in H; try discriminate.
      injection H as <-. apply lt_false in L.
      inversion S as [| ? ? S' F]; subst.
      constructor; [apply IH; [exact S' | reflexivity] |].
      apply insert_perm in E.
      eapply Permutation_Forall; [exact E |]. constructor; assumption.
Qed.

Lemma sorted_from_perm (acc xs r : list A) :
  sorted_from lt acc xs = Ok r -> Permutation (acc ++ xs) r.
Proof.
  revert acc r. induction xs as [| x rest IH]; intros acc r H; cbn in H.
  - injection H as <-. rewrite app_nil_r. reflexivity.
  - destruct (insert lt x acc) as [acc' |] eqn:E; cbn in H; try discriminate.
    apply IH in H. apply insert_perm in E.
    rewrite <- H, <- E. rewrite <- Permutation_middle. reflexivity.
Qed.

Lemma sorted_from_sorted (acc xs r : list A) :
  StronglySorted R acc -> sorted_from lt acc xs = Ok r -> StronglySorted R r.
Proof.
  revert acc r. induction xs as [| x rest IH]; intros acc r S H; cbn in H.
  - injection H as <-. exact S.
  - destruct (insert lt x acc) as [acc' |] eqn:E; cbn in H; try discriminate.
    eapply IH; [| exact H]. eapply insert_sorted; eassumption.
Qed.

Lemma py_sorted_perm (xs r : list A) :
  py_sorted lt xs = Ok r -> Permutation xs r.
Proof. apply (sorted_from_perm []). Qed.

Lemma py_sorted_sorted (xs r : list A) :
  py_sorted lt xs = Ok r -> StronglySorted R r.
Proof. apply (sorted_from_sorted []). constructor. Qed.

Lemma insert_defined (x : A) (acc : list A) :
  (forall y, In y acc -> exists b, lt x y = Ok b) ->
  exists r, insert lt x acc = Ok r.
Proof.
  induction acc as [| y rest IH]; intros D; cbn.
  - eexists; reflexivity.
  - destruct (D y (or_introl eq_refl)) as [[] ->]; cbn.
    + eexists; reflexivity.
    + destruct IH as [r ->]; [intros z Hz; apply D; right; exact Hz |].
      eexists; reflexivity.
Qed.

Lemma sorted_from_defined (acc xs : list A) :
  (forall x y, In x (acc ++ xs) -> In y (acc ++ xs) ->
               exists b, lt x y = Ok b) ->
  exists r, sorted_from lt acc xs = Ok r.
Proof.
  revert acc. induction xs as [| x rest IH]; intros acc D; cbn.
  - eexists; reflexivity.
  - destruct (insert_defined x acc) as [acc' E].
    { intros y Hy.
      apply D; apply in_or_app; [right; left; reflexivity | left; exact Hy]. }
    rewrite E. cbn. apply IH. intros a b Ha Hb.
    apply insert_perm in E.
    assert (P : Permutation (acc' ++ rest) (acc ++ x :: rest)).
    { rewrite <- E. cbn. apply Permutation_middle. }
    apply D; eapply Permutation_in; eassumption.
Qed.

Lemma sorted_comparable (l : list A) (x y : A) :
  StronglySorted R l -> In x l -> In y l -> R x y \/ R y x.
Proof.
  induction 1 as [| a l S IH F]; intros Hx Hy; [destruct Hx |].
  rewrite Forall_forall in F.
  destruct Hx as [<- | Hx], Hy as [<- | Hy]; auto.
Qed.

Lemma sorted_unique (l1 l2 : list A) :
  StronglySorted R l1 -> StronglySorted R l2 -> Permutation l1 l2 -> l1 = l2.
Proof.
  revert l2. induction l1 as [| a l1 IH]; intros l2 S1 S2 P.
  - apply Permutation_nil in P. subst. reflexivity.
  - destruct l2 as [| b l2]; [apply Permutation_sym, Permutation_nil in P;
                              discriminate |].
    inversion S1 as [| ? ? S1' F1]; subst.
    inversion S2 as [| ? ? S2' F2]; subst.
    rewrite Forall_forall in F1, F2.
    assert (a = b) as <-.
    { assert (Ha : In a (b :: l2))
        by (eapply Permutation_in; [exact P | left; reflexivity]).
      assert (Hb : In b (a :: l1))
        by (eapply Permutation_in; [symmetry; exact P | left; reflexivity]).
      destruct Ha as [-> | Ha]; [reflexivity |].
      destruct Hb as [-> | Hb]; [reflexivity |].
      apply R_antisym; auto. }
    f_equal. apply IH; auto. eapply Permutation_cons_inv; exact P.
Qed.

(** The outcome of sorting does not depend on the order of the input. *)
Lemma py_sorted_permutation (xs ys r : list A) :
  py_sorted lt xs = Ok r -> Permutation xs ys -> py_sorted lt ys = Ok r.
Proof.
  intros H P.
  pose proof (py_sorted_perm _ _ H) as Pr.
  pose proof (py_sorted_sorted _ _ H) as Sr.
  assert (Pyr : Permutation ys r)
    by (etransitivity; [symmetry; exact P | exact Pr]).
  destruct (sorted_from_defined [] ys) as [r' E].
  { cbn. intros x y Hx Hy. apply lt_defined.
    apply (sorted_comparable r); auto; eapply Permutation_in; eassumption. }
  change (py_sorted lt ys = Ok r') in E. rewrite E. f_equal.
  apply sorted_unique; auto.
  - eapply py_sorted_sorted; exact E.
  - apply py_sorted_perm in E. rewrite <- E. exact Pyr.
Qed.

End SortedFacts.

(** *** Comparisons *)

Lemma Qc_leb_le (x y : Qc) : Qc_leb x y = true <-> x <= y.
Proof. unfold Qc_leb, Qcle. apply Qle_bool_iff. Qed.

Lemma Qc_ltb_lt (x y : Qc) : Qc_ltb x y = true <-> x < y.
Proof.
  unfold Qc_ltb. rewrite negb_true_iff. split; intros H.
  - apply Qcnot_le_lt. intros L. apply Qc_leb_le in L. unfold Qc_leb in L.
    congruence.
  - destruct (Qle_bool y x) eqn:E; [| reflexivity].
    apply Qc_leb_le in E. exfalso. eapply Qclt_not_le; eassumption.
Qed.

Lemma Qc_ltb_ge (x y : Qc) : Qc_ltb x y = false <-> y <= x.
Proof.
  unfold Qc_ltb. rewrite negb_false_iff. apply Qc_leb_le.
Qed.

Lemma Qc_eqb_eq (x y : Qc) : Qc_eqb x y = true <-> x = y.
Proof.
  unfold Qc_eqb, Qc_eq_bool. destruct (Qc_eq_dec x y); split; congruence.
Qed.

Lemma Dataset_eqb_eq (a b : Dataset) : Dataset_eqb a b = true <-> a = b.
Proof.
  unfold Dataset_eqb. destruct (Dataset_eq_dec a b); split; congruence.
Qed.

Lemma float_lt_true (x y : Qc) : float_lt x y = Ok true -> x <= y.
Proof.
  unfold float_lt. intros H. injection H as H. apply Qc_ltb_lt in H.
  apply Qclt_le_weak. exact H.
Qed.

Lemma float_lt_false (x y : Qc) : float_lt x y = Ok false -> y <= x.
Proof. unfold float_lt. intros H. injection H as H. apply Qc_ltb_ge. exact H. Qed.

Lemma float_lt_defined (x y : Qc) :
  x <= y \/ y <= x -> exists b, float_lt x y = Ok b.
Proof. intros _. eexists; reflexivity. Qed.

Lemma tuple_lt_true (x y : Qc * Dataset) :
  tuple_lt x y = Ok true -> tuple_le x y.
Proof.
  unfold tuple_lt, tuple_le.
  destruct (Qc_eqb (fst x) (fst y)); cbv [negb].
  - destruct (Dataset_eqb (snd x) (snd y)); discriminate.
  - intros H. injection H as H. left. apply Qc_ltb_lt. exact H.
Qed.

Lemma tuple_lt_false (x y : Qc * Dataset) :
  tuple_lt x y = Ok false -> tuple_le y x.
Proof.
  unfold tuple_lt, tuple_le.
  destruct (Qc_eqb (fst x) (fst y)) eqn:K; cbv [negb].
  - destruct (Dataset_eqb (snd x) (snd y)) eqn:D; [| discriminate].
    intros _. right. apply Qc_eqb_eq in K. apply Dataset_eqb_eq in D.
    destruct x, y; cbn in *. congruence.
  - intros H. injection H as H. apply Qc_ltb_ge in H.
    destruct (Qcle_lt_or_eq _ _ H) as [L | E]; [left; exact L |].
    assert (Qc_eqb (fst x) (fst y) = true)
      by (apply Qc_eqb_eq; symmetry; exact E).
    congruence.
Qed.

Lemma tuple_lt_defined (x y : Qc * Dataset) :
  tuple_le x y \/ tuple_le y x -> exists b, tuple_lt x y = Ok b.
Proof.
  unfold tuple_lt, tuple_le.
  destruct (Qc_eqb (fst x) (fst y)) eqn:K; cbv [negb];
    [| eexists; reflexivity].
  apply Qc_eqb_eq in K. intros H.
  assert (x = y) as <-.
  { destruct H as [[L | E] | [L | E]]; auto; rewrite K in L;
      exfalso; exact (Qclt_not_le _ _ L (Qcle_refl _)). }
  assert (Dataset_eqb (snd x) (snd x) = true) as -> by (apply Dataset_eqb_eq;
                                                         reflexivity).
  eexists; reflexivity.
Qed.

Lemma tuple_le_refl (x : Qc * Dataset) : tuple_le x x.
Proof. right. reflexivity. Qed.

Lemma tuple_le_trans (x y z : Qc * Dataset) :
  tuple_le x y -> tuple_le y z -> tuple_le x z.
Proof.
  unfold tuple_le. intros [L1 | ->] [L2 | ->]; auto.
  left. eapply Qclt_trans; eassumption.
Qed.

Lemma tuple_le_antisym (x y : Qc * Dataset) :
  tuple_le x y -> tuple_le y x -> x = y.
Proof.
  unfold tuple_le. intros [L1 | E1] [L2 | E2]; auto.
  exfalso. eapply Qclt_not_le; [exact L1 | apply Qclt_le_weak; exact L2].
Qed.

Lemma sorted_floats_defined (xs : list Qc) :
  exists r, py_sorted float_lt xs = Ok r.
Proof.
  apply (sorted_from_defined float_lt []). intros x y _ _.
  eexists; reflexivity.
Qed.

Lemma sorted_floats_permutation (xs ys r : list Qc) :
  py_sorted float_lt xs = Ok r -> Permutation xs ys ->
  py_sorted float_lt ys = Ok r.
Proof.
  apply (py_sorted_permutation float_lt Qcle);
    eauto using float_lt_true, float_lt_false, float_lt_defined, Qcle_refl,
      Qcle_trans, Qcle_antisym.
Qed.

Lemma sorted_tuples_permutation (xs ys r : list (Qc * Dataset)) :
  py_sorted tuple_lt xs = Ok r -> Permutation xs ys ->
  py_sorted tuple_lt ys = Ok r.
Proof.
  apply (py_sorted_permutation tuple_lt tuple_le);
    eauto using tuple_lt_true, tuple_lt_false, tuple_lt_defined,
      tuple_le_refl, tuple_le_trans, tuple_le_antisym.
Qed.

(** ** The spatial sorter *)

Lemma map_result_length {A B : Type} (f : A -> result B) (xs : list A)
    (ys : list B) :
  map_result f xs = Ok ys -> List.length ys = List.length xs.
Proof.
  revert ys. induction xs as [| x xs IH]; intros ys H; cbn in H.
  - injection H as <-. reflexivity.
  - destruct (f x); cbn in H; try discriminate.
    destruct (map_result f xs); cbn in H; try discriminate.
    injection H as <-. cbn. f_equal. apply IH. reflexivity.
Qed.

Lemma map_snd_combine {A B : Type} (a : list A) (b : list B) :
  List.length a = List.length b -> map snd (combine a b) = b.
Proof.
  revert b. induction a as [| x a IH]; intros [| y b] H; try discriminate;
    [reflexivity |].
  cbn. f_equal. apply IH. injection H as H. exact H.
Qed.

Lemma slice_positions_length (ds : list Dataset) (positions : list Qc) :
  _slice_positions ds = Ok positions ->
  List.length positions = List.length ds.
Proof.
  unfold _slice_positions. intros H.
  destruct (first_item ds); cbv [rbind] in H; try discriminate.
  destruct (attr _ _) as [io |]; try discriminate.
  destruct (_extract_cosines io) as [[? ?] slice_cosine].
  eapply map_result_length. exact H.
Qed.

(** What the sorter returns, when it returns: the slices of the input,
    arranged so that positions never decrease and slices with the same
    position are equal datasets. *)
Lemma sort_by_slice_spacing_sound (ds sorted : list Dataset) :
  _sort_by_slice_spacing ds = Ok sorted ->
  exists positions pairs,
    _slice_positions ds = Ok positions
    /\ py_sorted tuple_lt (combine positions ds) = Ok pairs
    /\ sorted = map snd pairs
    /\ Permutation ds sorted
    /\ StronglySorted tuple_le pairs.
Proof.
  unfold _sort_by_slice_spacing. intros H.
  destruct (_slice_positions ds) as [positions |] eqn:P; cbv [rbind] in H;
    try discriminate.
  destruct (py_sorted tuple_lt (combine positions ds)) as [pairs |] eqn:S;
    try discriminate.
  injection H as <-. exists positions, pairs.
  repeat split; auto.
  - rewrite <- (map_snd_combine positions ds) at 1
      by (apply slice_positions_length; exact P).
    apply Permutation_map. eapply py_sorted_perm. exact S.
  - eapply py_sorted_sorted; [| | | exact S];
      eauto using tuple_lt_true, tuple_lt_false, tuple_le_trans.
Qed.

(** C5.  [slice_a] and [slice_a_echo] are two slices of one series at the
    same position with different pixels, so their sort keys are equal.  The
    sorter compares the tuples (key, dataset); on the tied keys it compares
    the datasets, which have no order, and raises [TypeError] in either
    input order instead of returning the two slices in input order.  The
    series passes validation, so the entry operation raises it too. *)
Theorem sorter_raises_on_tied_positions :
  (exists k, _slice_positions [slice_a; slice_a_echo] = Ok [k; k])
  /\ _sort_by_slice_spacing [slice_a; slice_a_echo] = Err TypeError
  /\ _sort_by_slice_spacing [slice_a_echo; slice_a] = Err TypeError
  /\ outcome (_validate_slices_form_uniform_grid [slice_a; slice_a_echo])
     = Ok tt
  /\ outcome (combine_slices [slice_a; slice_a_echo]) = Err TypeError.
Proof.
  split; [eexists; vm_compute; reflexivity |].
  repeat split; vm_compute; reflexivity.
Qed.

(** ** Which exceptions each step can raise *)

Lemma map_result_error {A B : Type} (f : A -> result B) (xs : list A)
    (e : exception) :
  map_result f xs = Err e -> exists x, In x xs /\ f x = Err e.
Proof.
  induction xs as [| x xs IH]; cbn; [discriminate |].
  destruct (f x) as [y | e'] eqn:F; cbv [rbind].
  - destruct (map_result f xs) as [ys | e'']; [discriminate |].
    intros H. injection H as ->. destruct IH as [z [Hz Fz]]; [reflexivity |].
    exists z. auto.
  - intros H. injection H as ->. exists x. auto.
Qed.

Lemma insert_error {A : Type} (lt : A -> A -> result bool) (x : A)
    (acc : list A) (e : exception) :
  insert lt x acc = Err e -> exists y, lt x y = Err e.
Proof.
  induction acc as [| y rest IH]; cbn; [discriminate |].
  destruct (lt x y) as [[] | e'] eqn:L; cbv [rbind].
  - discriminate.
  - destruct (insert lt x rest); [discriminate |].
    intros H. injection H as ->. apply IH. reflexivity.
  - intros H. injection H as ->. exists y. exact L.
Qed.

Lemma py_sorted_error {A : Type} (lt : A -> A -> result bool) (xs : list A)
    (e : exception) :
  py_sorted lt xs = Err e -> exists x y, lt x y = Err e.
Proof.
  unfold py_sorted. generalize (@nil A) as acc.
  induction xs as [| x xs IH]; intros acc; cbn; [discriminate |].
  destruct (insert lt x acc) as [acc' | e'] eqn:I; cbv [rbind].
  - apply IH.
  - intros H. injection H as ->. exists x. eapply insert_error. exact I.
Qed.

Lemma tuple_lt_error (x y : Qc * Dataset) (e : exception) :
  tuple_lt x y = Err e -> e = TypeError.
Proof.
  unfold tuple_lt. destruct (negb _); [discriminate |].
  destruct (negb _); [| discriminate]. congruence.
Qed.

Lemma first_item_error {A : Type} (xs : list A) (e : exception) :
  first_item xs = Err e -> lookup_error e.
Proof. destruct xs; cbn; [| discriminate]. intros H. injection H as <-. exact I. Qed.







Lemma sorted_floats_never_raise (xs : list Qc) (e : exception) :
  py_sorted float_lt xs <> Err e.
Proof.
  destruct (sorted_floats_defined xs) as [r ->]. discriminate.
Qed.




Lemma roughly_equal_loop_error (pairs : list (element * element))
    (e : exception) :
  roughly_equal_loop pairs = Err e -> lookup_error e.
Proof.
  induction pairs as [| [a b] rest IH]; cbn [roughly_equal_loop];
    [discriminate |].
  unfold is_float.
  destruct (py_float a) as [x |] eqn:A; cbv [rbind].
  - destruct (py_float b) as [y |] eqn:B.
    + destruct (negb _); [discriminate | exact IH].
    + intros H. injection H as <-.
      destruct b as [c | q]; cbn in B; [| discriminate].
      destruct (digit_value c); [discriminate |]. injection B as <-. exact I.
  - destruct a as [c | q]; cbn in A; [| discriminate].
    destruct (digit_value c); [discriminate |]. injection A as <-.
    cbv iota beta. destruct (element_ne _ _); [discriminate | exact IH].
Qed.

Lemma lsts_roughly_equal_error (a b : value) (e : exception) :
  _lsts_roughly_equal a b = Err e -> lookup_error e.
Proof.
  unfold _lsts_roughly_equal. destruct (negb (is_iterable a)); [discriminate |].
  destruct (py_len a) as [n1 |] eqn:L1; cbv [rbind].
  - destruct (py_len b) as [n2 |] eqn:L2.
    + destruct (negb _); [discriminate | apply roughly_equal_loop_error].
    + intros H. injection H as <-.
      destruct b; cbn in L2; try discriminate; injection L2 as <-; exact I.
  - intros H. injection H as <-.
    destruct a; cbn in L1; try discriminate; injection L1 as <-; exact I.
Qed.

Lemma compare_with_initial_error (name : string) (initial : value)
    (others : list Dataset) (e : exception) :
  compare_with_initial name initial others = Err e ->
  lookup_error e
  \/ exists d, In d others
       /\ e = DicomImportException (MsgAttribute name (getattr d name) initial).
Proof.
  induction others as [| d rest IH]; cbn [compare_with_initial];
    [discriminate |].
  destruct (_lsts_roughly_equal (getattr d name) initial) as [[] |] eqn:L;
    cbv [rbind negb].
  - intros H. destruct (IH H) as [K | [d' [In' K]]]; [left; exact K |].
    right. exists d'. split; [right; exact In' | exact K].
  - intros H. injection H as <-. right. exists d. split;
      [left; reflexivity | reflexivity].
  - intros H. injection H as <-. left. eapply lsts_roughly_equal_error.
    exact L.
Qed.


Lemma orientation_failures (io : vec3 * vec3) (e : exception) :
  outcome (_validate_image_orientation io) = Err e ->
  e = DicomImportException (MsgNonOrthogonal (fst io) (snd io))
  \/ e = DicomImportException (MsgRowMagnitude (fst io))
  \/ e = DicomImportException (MsgColumnMagnitude (snd io)).
Proof.
  unfold _validate_image_orientation, _extract_cosines, check_orthogonal,
    check_magnitude.
  destruct (_almost_zero _ tol_1e_4), (_almost_zero _ tol_1e_8),
    (_almost_one (Np.norm (fst io)) tol_1e_4),
    (_almost_one (Np.norm (fst io)) tol_1e_8),
    (_almost_one (Np.norm (snd io)) tol_1e_4),
    (_almost_one (Np.norm (snd io)) tol_1e_8);
    cbv [bind raise warn ret outcome snd negb];
    intros H; try discriminate; injection H as <-; auto.
Qed.

(** ** The pipeline, step by step *)

Lemma validate_grid_outcome (ds : list Dataset) :
  outcome (_validate_slices_form_uniform_grid ds) =
  match check_properties ds invariant_properties with
  | Err e => Err e
  | Ok _ =>
      match (first <- first_item ds;;
             attr "ImageOrientationPatient" (ImageOrientationPatient first))
      with
      | Err e => Err e
      | Ok io =>
          match outcome (_validate_image_orientation io) with
          | Err e => Err e
          | Ok _ =>
              match _slice_positions ds with
              | Err e => Err e
              | Ok positions =>
                  outcome (_check_for_missing_slices positions)
              end
          end
      end
  end.
Proof.
  unfold _validate_slices_form_uniform_grid.
  rewrite outcome_bind, outcome_lift.
  destruct (check_properties ds invariant_properties); [| reflexivity].
  rewrite outcome_bind, outcome_lift.
  destruct (first <- first_item ds;; attr _ _) as [io |]; [| reflexivity].
  rewrite outcome_bind.
  destruct (outcome (_validate_image_orientation io)); [| reflexivity].
  rewrite outcome_bind, outcome_lift. reflexivity.
Qed.

Lemma combine_slices_outcome (ds : list Dataset) :
  outcome (combine_slices ds) =
  match ds with
  | [] => Err (DicomImportException MsgNoDataset)
  | _ :: _ =>
      match outcome (_validate_slices_form_uniform_grid ds) with
      | Err e => Err e
      | Ok _ =>
          match _merge_slice_pixel_arrays ds with
          | Err e => Err e
          | Ok vox =>
              match _ijk_to_patient_xyz_transform_matrix ds with
              | Err e => Err e
              | Ok transform => Ok (vox, transform)
              end
          end
      end
  end.
Proof.
  unfold combine_slices. destruct ds as [| d ds]; [reflexivity |].
  change (List.length (d :: ds) =? 0)%nat with false. cbv iota.
  rewrite outcome_bind.
  destruct (outcome (_validate_slices_form_uniform_grid (d :: ds)));
    [| reflexivity].
  rewrite outcome_bind, outcome_lift.
  destruct (_merge_slice_pixel_arrays (d :: ds)); [| reflexivity].
  rewrite outcome_bind, outcome_lift.
  destruct (_ijk_to_patient_xyz_transform_matrix (d :: ds)); reflexivity.
Qed.

(** What a successful call went through. *)
Lemma combine_slices_ok (ds : list Dataset) (vox : voxels) (transform : matrix) :
  outcome (combine_slices ds) = Ok (vox, transform) ->
  ds <> []
  /\ outcome (_validate_slices_form_uniform_grid ds) = Ok tt
  /\ _merge_slice_pixel_arrays ds = Ok vox
  /\ _ijk_to_patient_xyz_transform_matrix ds = Ok transform.
Proof.
  rewrite combine_slices_outcome. destruct ds as [| d ds]; [discriminate |].
  destruct (outcome (_validate_slices_form_uniform_grid (d :: ds)))
    as [[] |]; [| discriminate].
  destruct (_merge_slice_pixel_arrays (d :: ds)); [| discriminate].
  destruct (_ijk_to_patient_xyz_transform_matrix (d :: ds)); [| discriminate].
  intros H. injection H as <- <-. repeat split. discriminate.
Qed.

Lemma validate_grid_ok (ds : list Dataset) :
  outcome (_validate_slices_form_uniform_grid ds) = Ok tt ->
  passes_earlier_checks ds
  /\ exists positions,
       _slice_positions ds = Ok positions
       /\ outcome (_check_for_missing_slices positions) = Ok tt.
Proof.
  rewrite validate_grid_outcome. unfold passes_earlier_checks.
  destruct (check_properties ds invariant_properties) as [[] |];
    [| discriminate].
  destruct (first_item ds) as [first |]; cbv [rbind]; [| discriminate].
  destruct (ImageOrientationPatient first) as [io |] eqn:O; cbv [attr];
    [| discriminate].
  destruct (outcome (_validate_image_orientation io)) as [[] |] eqn:V;
    [| discriminate].
  destruct (_slice_positions ds) as [positions |]; [| discriminate].
  intros H. split; [split; [reflexivity | exists first, io; auto] |].
  exists positions. auto.
Qed.

(** ** The spacing check *)

Lemma diff_length (a : list Qc) :
  List.length (Np.diff a) = pred (List.length a).
Proof.
  induction a as [| x [| y t] IH]; try reflexivity.
  cbn [Np.diff List.length pred] in *. rewrite IH. reflexivity.
Qed.

Lemma allclose_deviates (reference : Qc) (rest : list Qc) (tol : Qc) :
  Np.allclose (reference :: rest) reference tol
  = negb (deviates_from_first tol (reference :: rest)).
Proof.
  unfold Np.allclose, deviates_from_first. rewrite Qcplus_0_l.
  generalize (reference :: rest) as l.
  induction l as [| d l IH]; [reflexivity |].
  cbn [forallb existsb]. rewrite IH, negb_orb. f_equal.
  unfold Qc_ltb, Qc_leb. rewrite negb_involutive. reflexivity.
Qed.

Lemma check_for_missing_slices_run (positions sorted_positions : list Qc)
    (reference : Qc) (rest : list Qc) :
  py_sorted float_lt positions = Ok sorted_positions ->
  Np.diff sorted_positions = reference :: rest ->
  _check_for_missing_slices positions =
  ((if deviates_from_first tol_1e_5 (reference :: rest)
    then [WarnNonUniformSpacing (reference :: rest)] else []),
   if deviates_from_first tol_1e_1 (reference :: rest)
   then Err (DicomImportException MsgMissingSlices) else Ok tt).
Proof.
  intros S D. unfold _check_for_missing_slices. rewrite S.
  cbv [lift bind]. rewrite D. cbv [first_item]. rewrite !allclose_deviates.
  rewrite !negb_involutive.
  destruct (deviates_from_first tol_1e_5 _), (deviates_from_first tol_1e_1 _);
    reflexivity.
Qed.





(** ** Attribute validation *)

Lemma getattr_with_series_uid (uid : option string) (d : Dataset)
    (name : string) :
  String.eqb name "SeriesInstanceUID" = false ->
  getattr (with_series_uid uid d) name = getattr d name.
Proof.
  intros N. unfold getattr. rewrite N. reflexivity.
Qed.

Lemma compare_with_initial_series_uid (name : string) (initial : value)
    (others others' : list Dataset) :
  String.eqb name "SeriesInstanceUID" = false ->
  Forall2 differ_only_in_series_uid others others' ->
  compare_with_initial name initial others'
  = compare_with_initial name initial others.
Proof.
  intros N F. induction F as [| d d' rest rest' [uid ->] F IH];
    [reflexivity |].
  cbn [compare_with_initial]. rewrite getattr_with_series_uid by exact N.
  rewrite IH. reflexivity.
Qed.

Lemma slice_attribute_equal_series_uid (ds ds' : list Dataset)
    (name : string) :
  Forall2 differ_only_in_series_uid ds ds' ->
  _slice_attribute_equal ds' name = _slice_attribute_equal ds name.
Proof.
  intros F. unfold _slice_attribute_equal.
  destruct (String.eqb name "SeriesInstanceUID") eqn:N; [reflexivity |].
  destruct F as [| d d' rest rest' [uid ->] F]; [reflexivity |].
  cbv [first_item rbind tl]. rewrite getattr_with_series_uid by exact N.
  apply compare_with_initial_series_uid; assumption.
Qed.

Lemma check_properties_series_uid (ds ds' : list Dataset)
    (names : list string) :
  Forall2 differ_only_in_series_uid ds ds' ->
  check_properties ds' names = check_properties ds names.
Proof.
  intros F. induction names as [| name names IH]; [reflexivity |].
  cbn [check_properties]. rewrite (slice_attribute_equal_series_uid ds ds')
    by exact F.
  rewrite IH. reflexivity.
Qed.

Lemma check_properties_mismatch_name (ds : list Dataset)
    (names : list string) (name : string) (v v0 : value) :
  check_properties ds names
  = Err (DicomImportException (MsgAttribute name v v0)) ->
  In name names /\ String.eqb name "SeriesInstanceUID" = false.
Proof.
  induction names as [| n rest IH]; cbn [check_properties];
    [discriminate |].
  destruct (_slice_attribute_equal ds n) as [[] |] eqn:S; cbv [rbind].
  - intros H. destruct (IH H) as [I N]. split; [right; exact I | exact N].
  - intros H. injection H as ->. unfold _slice_attribute_equal in S.
    destruct (String.eqb n "SeriesInstanceUID") eqn:N; [discriminate |].
    destruct (first_item ds) as [first |] eqn:F; cbv [rbind] in S;
      [| injection S as ->; apply first_item_error in F; destruct F].
    apply compare_with_initial_error in S.
    destruct S as [K | [d [_ K]]]; [destruct K |].
    injection K as <- _ _. split; [left; reflexivity | exact N].
Qed.

(** C9.  Two series whose slices differ only in their series identifier
    are treated alike by the attribute validator: it returns, or raises the
    same exception with the same message, on both.  The identifier is
    skipped, so the validator never reports a mismatch of it. *)
Theorem series_uid_is_not_compared (ds ds' : list Dataset) :
  Forall2 differ_only_in_series_uid ds ds' ->
  check_properties ds' invariant_properties
  = check_properties ds invariant_properties
  /\ (forall v v0,
        check_properties ds invariant_properties
        <> Err (DicomImportException (MsgAttribute "SeriesInstanceUID" v v0)))
  /\ _slice_attribute_equal ds "SeriesInstanceUID" = Ok tt.
Proof.
  intros F. split; [apply check_properties_series_uid; exact F |].
  split; [| reflexivity].
  intros v v0 H. apply check_properties_mismatch_name in H.
  destruct H as [_ H]. discriminate.
Qed.

Lemma series_uid_is_not_compared_witness :
  Forall2 differ_only_in_series_uid [slice_a; slice_b]
          [slice_a; slice_b_other_series]
  /\ SeriesInstanceUID slice_b <> SeriesInstanceUID slice_b_other_series
  /\ check_properties [slice_a; slice_b_other_series] invariant_properties
     = check_properties [slice_a; slice_b] invariant_properties.
Proof.
  assert (F : Forall2 differ_only_in_series_uid [slice_a; slice_b]
                      [slice_a; slice_b_other_series]).
  { constructor; [exists (SeriesInstanceUID slice_a); reflexivity |].
    constructor; [eexists; reflexivity | constructor]. }
  split; [exact F |]. split; [discriminate |].
  exact (proj1 (series_uid_is_not_compared _ _ F)).
Defined.

(** *** The comparison of two values *)

Lemma Qc2R_of_Z (z : Z) : Qc2R (Qc_of_Z z) = IZR z.
Proof.
  unfold Qc2R, Qc_of_Z.
  transitivity (Q2R (inject_Z z)); [apply Qeq_eqR, Qred_correct |].
  unfold Q2R, inject_Z. cbn [Qnum Qden]. lra.
Qed.

Lemma tol3 : Qc2R error_margin = (1 / 1000)%R.
Proof. unfold Qc2R, error_margin, tol_1e_3. simpl. unfold Q2R. simpl. lra. Qed.

Lemma margin_test (a b : Qc) :
  Qc_leb (a - error_margin) b && Qc_leb b (a + error_margin)
  = within_margin a b.
Proof.
  apply eq_true_iff_eq. unfold within_margin.
  rewrite andb_true_iff, !Qc_leb_Rle, py_abs_R, !Qc2R_minus, Qc2R_plus.
  rewrite Rabs_le_iff. lra.
Qed.

Lemma within_margin_refl (a : Qc) : within_margin a a = true.
Proof.
  unfold within_margin. rewrite Qc_leb_Rle, py_abs_R, Qc2R_minus, tol3.
  rewrite Rabs_le_iff. lra.
Qed.

Lemma within_margin_integers (m n : Z) :
  within_margin (Qc_of_Z m) (Qc_of_Z n) = (m =? n)%Z.
Proof.
  apply eq_true_iff_eq. unfold within_margin.
  rewrite Qc_leb_Rle, py_abs_R, Qc2R_minus, !Qc2R_of_Z, tol3, Rabs_le_iff.
  rewrite Z.eqb_eq. split.
  - intros H. apply Z.sub_move_0_r. apply one_IZR_lt1.
    rewrite minus_IZR. lra.
  - intros ->. lra.
Qed.

Lemma roughly_equal_loop_numbers (l k : list Qc) :
  roughly_equal_loop (combine (map ENum l) (map ENum k))
  = Ok (forallb (fun p => within_margin (fst p) (snd p)) (combine l k)).
Proof.
  revert k. induction l as [| a l IH]; intros [| b k]; try reflexivity.
  cbn [map combine roughly_equal_loop forallb fst snd].
  cbv [is_float py_float rbind]. rewrite margin_test.
  destruct (within_margin a b); cbv [negb andb]; [apply IH | reflexivity].
Qed.

Lemma digit_value_range (c : ascii) (d : Z) :
  digit_value c = Some d -> Z.of_N (N_of_ascii c) = (d + 48)%Z.
Proof.
  unfold digit_value. destruct (_ && _); [| discriminate].
  intros H. injection H as <-. lia.
Qed.

Lemma digit_value_injective (c c' : ascii) (d : Z) :
  digit_value c = Some d -> digit_value c' = Some d -> c = c'.
Proof.
  intros H H'. apply digit_value_range in H, H'.
  rewrite <- (ascii_N_embedding c), <- (ascii_N_embedding c'). f_equal. lia.
Qed.

Lemma roughly_equal_loop_characters (l k : list ascii) (b : bool) :
  List.length l = List.length k ->
  roughly_equal_loop (combine (map EChar l) (map EChar k)) = Ok b ->
  (b = true <-> l = k).
Proof.
  revert k b. induction l as [| c l IH]; intros [| c' k] b L; try discriminate.
  - cbn. intros H. injection H as <-. split; reflexivity.
  - cbn [map combine roughly_equal_loop]. injection L as L.
    cbv [is_float py_float].
    destruct (digit_value c) as [d |] eqn:D; cbv [rbind].
    + destruct (digit_value c') as [d' |] eqn:D'; [| discriminate].
      rewrite margin_test, within_margin_integers.
      destruct (d =? d')%Z eqn:E; cbv [negb].
      * apply Z.eqb_eq in E. subst d'.
        rewrite (digit_value_injective c c' d D D').
        intros H. rewrite (IH k b L H). split; congruence.
      * intros H. injection H as <-. split; [discriminate |].
        intros K. injection K as -> _. apply Z.eqb_neq in E. congruence.
    + cbv [element_ne]. destruct (Ascii.eqb c c') eqn:E; cbv [negb].
      * apply Ascii.eqb_eq in E. subst c'.
        intros H. rewrite (IH k b L H). split; congruence.
      * intros H. injection H as <-. split; [discriminate |].
        intros K. injection K as -> _. rewrite Ascii.eqb_refl in E.
        discriminate.
Qed.

Lemma list_ascii_length (s : string) :
  List.length (list_ascii_of_string s) = String.length s.
Proof. induction s as [| c s IH]; cbn; congruence. Qed.

Lemma list_ascii_injective (s t : string) :
  list_ascii_of_string s = list_ascii_of_string t -> s = t.
Proof.
  intros H. rewrite <- (string_of_list_ascii_of_string s),
    <- (string_of_list_ascii_of_string t), H. reflexivity.
Qed.

Lemma roughly_equal_sequences (l k : list Qc) :
  _lsts_roughly_equal (VSeq l) (VSeq k) = Ok (values_agree (VSeq l) (VSeq k)).
Proof.
  unfold _lsts_roughly_equal, values_agree.
  cbv [is_iterable negb py_len rbind py_iter].
  destruct (List.length l =? List.length k)%nat; cbv [negb andb];
    [apply roughly_equal_loop_numbers | reflexivity].
Qed.

Lemma roughly_equal_strings (s t : string) (b : bool) :
  _lsts_roughly_equal (VStr s) (VStr t) = Ok b -> b = String.eqb s t.
Proof.
  unfold _lsts_roughly_equal.
  cbv [is_iterable negb py_len rbind py_iter].
  destruct (String.length s =? String.length t)%nat eqn:L; cbv [negb].
  - intros H. apply roughly_equal_loop_characters in H;
      [| rewrite !list_ascii_length; apply Nat.eqb_eq; exact L].
    apply eq_true_iff_eq. rewrite H, String.eqb_eq. split;
      [apply list_ascii_injective | congruence].
  - intros H. injection H as <-. symmetry. apply String.eqb_neq.
    intros ->. rewrite Nat.eqb_refl in L. discriminate.
Qed.

(** Whenever the comparison of two values of one attribute returns, it
    returns what the specification's relation says. *)
Lemma roughly_equal_agrees (a b : value) (r : bool) :
  same_kind a b -> _lsts_roughly_equal a b = Ok r -> r = values_agree a b.
Proof.
  destruct a as [| m | s | l], b as [| n | t | k]; cbn [same_kind];
    intros K H; try destruct K;
    try (cbv [_lsts_roughly_equal is_iterable negb py_len rbind] in H;
         first [discriminate | injection H as <-; reflexivity]).
  - cbv [_lsts_roughly_equal is_iterable negb] in H. injection H as <-.
    cbv [values_agree py_eq]. symmetry. apply within_margin_integers.
  - apply roughly_equal_strings. exact H.
  - rewrite roughly_equal_sequences in H. injection H as <-. reflexivity.
Qed.

Lemma getattr_same_kind (d d0 : Dataset) (name : string) :
  same_kind (getattr d name) (getattr d0 name).
Proof.
  unfold getattr, opt_value.
  repeat match goal with
         | |- context [String.eqb name ?n] => destruct (String.eqb name n)
         end;
    repeat match goal with
           | |- context [match ?o with Some _ => _ | None => _ end] =>
               destruct o
           end;
    exact I.
Qed.

(** *** The comparison of the first slice with the others *)

Lemma compare_with_initial_ok (name : string) (initial : value)
    (others : list Dataset) :
  compare_with_initial name initial others = Ok tt <->
  Forall (fun d => _lsts_roughly_equal (getattr d name) initial = Ok true)
         others.
Proof.
  induction others as [| d rest IH]; cbn [compare_with_initial].
  - split; [constructor | reflexivity].
  - destruct (_lsts_roughly_equal (getattr d name) initial) as [[] |] eqn:L;
      cbv [rbind negb].
    + rewrite IH. split; [intros F; constructor; auto |].
      intros F. inversion F. assumption.
    + split; [discriminate |]. intros F. inversion F. congruence.
    + split; [discriminate |]. intros F. inversion F. congruence.
Qed.

Lemma compare_with_initial_mismatch (name : string) (initial : value)
    (others : list Dataset) (m : message) :
  compare_with_initial name initial others = Err (DicomImportException m) <->
  exists before d after,
    others = before ++ d :: after
    /\ Forall (fun d => _lsts_roughly_equal (getattr d name) initial = Ok true)
              before
    /\ _lsts_roughly_equal (getattr d name) initial = Ok false
    /\ m = MsgAttribute name (getattr d name) initial.
Proof.
  induction others as [| d rest IH]; cbn [compare_with_initial].
  - split; [discriminate |]. intros [[| ? ?] [? [? [H _]]]]; discriminate.
  - destruct (_lsts_roughly_equal (getattr d name) initial) as [[] |] eqn:L;
      cbv [rbind negb].
    + rewrite IH. split.
      * intros [before [d' [after [E [F [C M]]]]]].
        exists (d :: before), d', after. rewrite E.
        repeat split; auto.
      * intros [[| d0 before] [d' [after [E [F [C M]]]]]];
          injection E as <- E; [congruence |].
        exists before, d', after. inversion F. auto.
    + split.
      * intros H. injection H as <-. exists [], d, rest. repeat split; auto.
      * intros [[| d0 before] [d' [after [E [F [C M]]]]]];
          injection E as <- E; [subst; reflexivity |].
        inversion F. congruence.
    + split.
      * intros H. injection H as ->. apply lsts_roughly_equal_error in L.
        destruct L.
      * intros [[| d0 before] [d' [after [E [F [C M]]]]]];
          injection E as <- E; [congruence |].
        inversion F. congruence.
Qed.




(** ** The affine transform *)

Lemma map_result_Forall2 {A B : Type} (f : A -> result B) (xs : list A)
    (ys : list B) :
  map_result f xs = Ok ys -> Forall2 (fun x y => f x = Ok y) xs ys.
Proof.
  revert ys. induction xs as [| x xs IH]; intros ys H; cbn in H.
  - injection H as <-. constructor.
  - destruct (f x) as [y |] eqn:F; cbv [rbind] in H; [| discriminate].
    destruct (map_result f xs) as [ys' |]; [| discriminate].
    injection H as <-. constructor; [exact F | apply IH; reflexivity].
Qed.

Lemma validated_length (ds : list Dataset) :
  outcome (_validate_slices_form_uniform_grid ds) = Ok tt ->
  (2 <= List.length ds)%nat.
Proof.
  destruct ds as [| d [| d' ds]]; intros H.
  - rewrite validate_grid_outcome in H.
    destruct (check_properties [] invariant_properties); discriminate.
  - destruct (single_slice_rejected d) as [e E]. congruence.
  - cbn. lia.
Qed.

Lemma slice_spacing_mean (ds : list Dataset) (positions : list Qc) :
  (2 <= List.length ds)%nat ->
  _slice_positions ds = Ok positions ->
  _slice_spacing ds = Ok (Np.mean (position_diffs ds)).
Proof.
  intros L P. unfold _slice_spacing, position_diffs, positions_of.
  assert ((1 <? List.length ds)%nat = true) as -> by (apply Nat.ltb_lt; lia).
  rewrite P. cbv [rbind].
  destruct (sorted_floats_defined positions) as [sp ->]. reflexivity.
Qed.

Lemma merge_stacks_sorted (ds sorted : list Dataset) (vox : voxels) :
  _sort_by_slice_spacing ds = Ok sorted ->
  _merge_slice_pixel_arrays ds = Ok vox ->
  stacked_from vox sorted.
Proof.
  intros S. unfold _merge_slice_pixel_arrays. rewrite S.
  destruct (first_item ds) as [first |]; cbv [rbind]; [| discriminate].
  destruct (attr _ (Rows first)) as [num_rows |]; [| discriminate].
  destruct (attr _ (Columns first)) as [num_columns |]; [| discriminate].
  destruct (existsb _requires_rescaling sorted);
    (destruct (dimension num_columns) as [c |]; [| discriminate]);
    (destruct (dimension num_rows) as [r |]; [| discriminate]);
    (destruct (map_result _ sorted) as [planes |] eqn:M; [| discriminate]);
    intros H; injection H as <-; cbv [stacked_from];
    apply map_result_Forall2; exact M.
Qed.

(** C8.  When the entry operation returns, the sorter has returned a
    non-empty list.  With [first] its first slice: column 0 of the transform
    is the row cosine of [first] times its column spacing, column 1 is its
    column cosine times its row spacing, column 2 is the cross product of
    the two cosines times the mean of the sorted position differences,
    column 3 is the position of [first], each followed by the entry of the
    bottom row (0, 0, 0, 1); the matrix has four rows of four entries.  The
    planes of the volume are stacked from the same sorted list, so the plane
    of index 0 comes from [first]. *)
Theorem transform_columns (ds : list Dataset) (vox : voxels)
    (transform : matrix) :
  outcome (combine_slices ds) = Ok (vox, transform) ->
  exists first rest row_cosine column_cosine row_spacing column_spacing
         position,
    _sort_by_slice_spacing ds = Ok (first :: rest)
    /\ ImageOrientationPatient first = Some (row_cosine, column_cosine)
    /\ PixelSpacing first = Some (row_spacing, column_spacing)
    /\ ImagePositionPatient first = Some position
    /\ column 0 transform
       = vec3_to_list (Np.scale row_cosine column_spacing) ++ [0]
    /\ column 1 transform
       = vec3_to_list (Np.scale column_cosine row_spacing) ++ [0]
    /\ column 2 transform
       = vec3_to_list (Np.scale (Np.cross row_cosine column_cosine)
                                (Np.mean (position_diffs ds))) ++ [0]
    /\ column 3 transform = vec3_to_list position ++ [1]
    /\ nth 3 transform [] = [0; 0; 0; 1]
    /\ map (@List.length Qc) transform = [4; 4; 4; 4]%nat
    /\ stacked_from vox (first :: rest).
Proof.
  intros H. apply combine_slices_ok in H. destruct H as [_ [V [M T]]].
  pose proof (validated_length ds V) as L.
  apply validate_grid_ok in V. destruct V as [_ [positions [P _]]].
  pose proof (slice_spacing_mean ds positions L P) as Sp.
  unfold _ijk_to_patient_xyz_transform_matrix in T. rewrite Sp in T.
  destruct (_sort_by_slice_spacing ds) as [sorted |] eqn:S;
    cbv [rbind] in T; [| discriminate].
  destruct sorted as [| first rest]; cbv [first_item] in T; [discriminate |].
  destruct (ImageOrientationPatient first) as [[row_cosine column_cosine] |]
    eqn:O; cbv [attr _extract_cosines fst snd] in T; [| discriminate].
  destruct (PixelSpacing first) as [[row_spacing column_spacing] |] eqn:Px;
    [| discriminate].
  destruct (ImagePositionPatient first) as [position |] eqn:Ps;
    [| discriminate].
  injection T as <-.
  exists first, rest, row_cosine, column_cosine, row_spacing, column_spacing,
    position.
  repeat split; try assumption; try reflexivity.
  eapply merge_stacks_sorted; [exact S | exact M].
Qed.

Lemma transform_columns_witness :
  outcome (combine_slices [slice_b; slice_a])
  = Ok (fst (returned [slice_b; slice_a]), snd (returned [slice_b; slice_a]))
  /\ exists first rest,
       _sort_by_slice_spacing [slice_b; slice_a] = Ok (first :: rest)
       /\ column 3 (snd (returned [slice_b; slice_a]))
          = match ImagePositionPatient first with
            | Some position => vec3_to_list position ++ [1]
            | None => []
            end
       /\ stacked_from (fst (returned [slice_b; slice_a])) (first :: rest).
Proof.
  assert (H : outcome (combine_slices [slice_b; slice_a])
              = Ok (fst (returned [slice_b; slice_a]),
                    snd (returned [slice_b; slice_a])))
    by (vm_compute; reflexivity).
  split; [exact H |].
  destruct (transform_columns _ _ _ H)
    as (first & rest & rc & cc & rs & cs & pos & S & _ & _ & P & _ & _ & _
        & C & _ & _ & St).
  exists first, rest. rewrite P.
  split; [exact S | split; [exact C | exact St]].
Defined.

(** ** Merging the pixel arrays *)

Lemma requires_rescaling_carries (d : Dataset) :
  _requires_rescaling d = true <-> carries_rescale d.
Proof.
  unfold _requires_rescaling, carries_rescale.
  destruct (RescaleSlope d) as [[s |] |],
    (RescaleIntercept d) as [[i |] |];
    split; intros H; try reflexivity; try discriminate; eauto;
    destruct H as [[x H] | [x H]]; discriminate.
Qed.

Lemma existsb_requires_rescaling (l : list Dataset) :
  existsb _requires_rescaling l = true <-> Exists carries_rescale l.
Proof.
  rewrite existsb_exists, Exists_exists.
  split; intros [d [I H]]; exists d; split; auto;
    apply requires_rescaling_carries; exact H.
Qed.

Lemma nth_map_in_range {A B : Type} (f : A -> B) (l : list A) (i : nat)
    (dA : A) (dB : B) :
  (i < List.length l)%nat -> nth i (map f l) dB = f (nth i l dA).
Proof.
  intros L. rewrite (nth_indep _ dB (f dA)) by (rewrite length_map; exact L).
  apply map_nth.
Qed.

Lemma has_shape_row {T : Type} (r c : nat) (a : list (list T)) (j : nat) :
  has_shape r c a -> (j < r)%nat -> List.length (nth j a []) = c.
Proof.
  intros [L F] J. rewrite Forall_forall in F. apply F. apply nth_In. lia.
Qed.

Lemma has_shape_width {T : Type} (r c : nat) (a : list (list T)) :
  has_shape r c a -> (0 < r)%nat -> snd (shape2 a) = c.
Proof.
  intros H R. unfold shape2. cbn [snd].
  destruct a as [| row a]; [destruct H as [L _]; cbn in L; lia |].
  cbn [hd]. apply (has_shape_row r c (row :: a) 0 H R).
Qed.

Lemma transpose_shape {T : Type} (default : T) (r c : nat)
    (a : list (list T)) :
  has_shape r c a -> (0 < r)%nat -> has_shape c r (transpose default a).
Proof.
  intros H R. unfold transpose. rewrite (has_shape_width r c a H R).
  split; [rewrite length_map, length_seq; reflexivity |].
  apply Forall_forall. intros row I. apply in_map_iff in I.
  destruct I as [j [<- _]]. rewrite length_map. apply H.
Qed.

Lemma transpose_entry {T : Type} (default : T) (r c : nat)
    (a : list (list T)) (i j : nat) :
  has_shape r c a -> (i < c)%nat -> (j < r)%nat ->
  nth j (nth i (transpose default a) []) default
  = nth i (nth j a []) default.
Proof.
  intros H I J. unfold transpose.
  rewrite (has_shape_width r c a H) by lia.
  rewrite (nth_map_in_range _ _ _ 0%nat) by (rewrite length_seq; exact I).
  rewrite seq_nth by exact I. cbn [Nat.add].
  rewrite (nth_map_in_range _ _ _ []) by (destruct H as [L _]; lia).
  reflexivity.
Qed.

Lemma broadcast_axis_same {T : Type} (n : nat) (l : list T) :
  broadcast_axis n n l = Ok l.
Proof. unfold broadcast_axis. rewrite Nat.eqb_refl. reflexivity. Qed.

Lemma map_result_same {A : Type} (f : A -> result A) (xs : list A) :
  (forall x, f x = Ok x) -> map_result f xs = Ok xs.
Proof.
  intros F. induction xs as [| x xs IH]; [reflexivity |].
  cbn [map_result]. rewrite F. cbv [rbind]. rewrite IH. reflexivity.
Qed.

(** Assigning an array of the shape of the target stores the array. *)
Lemma assigned_plane_conforming {T : Type} (c r : nat) (a x : list (list T)) :
  a = [] \/ has_shape c r a -> assigned_plane c r a = Ok x -> x = a.
Proof.
  unfold assigned_plane. destruct a as [| row a]; intros H.
  - cbn. cbv [broadcast_axis]. destruct (0 =? c)%nat; [congruence |].
    cbn. discriminate.
  - destruct H as [H | [L F]]; [discriminate |].
    unfold shape2. cbn [hd].
    assert (List.length row = r) as ->
      by (rewrite Forall_forall in F; apply F; left; reflexivity).
    rewrite map_result_same by (intros; apply broadcast_axis_same).
    cbv [rbind]. rewrite L, broadcast_axis_same. congruence.
Qed.

Lemma map_result_map {A B : Type} (f : A -> result B) (g : A -> B)
    (xs : list A) (ys : list B) :
  (forall x y, In x xs -> f x = Ok y -> y = g x) ->
  map_result f xs = Ok ys -> ys = map g xs.
Proof.
  revert ys. induction xs as [| x xs IH]; intros ys G H; cbn in H.
  - injection H as <-. reflexivity.
  - destruct (f x) as [y |] eqn:F; cbv [rbind] in H; [| discriminate].
    destruct (map_result f xs) as [ys' |]; [| discriminate].
    injection H as <-. cbn [map]. f_equal.
    + apply G; [left; reflexivity | exact F].
    + apply IH; [| reflexivity]. intros x' y' I. apply G. right. exact I.
Qed.

Lemma dimension_of_nat (n : Z) (k : nat) :
  dimension n = Ok k -> n = Z.of_nat k.
Proof.
  unfold dimension. destruct (n <? 0)%Z eqn:N; [discriminate |].
  intros H. injection H as <-. apply Z.ltb_ge in N. lia.
Qed.

Lemma cast_same (dt : dtype) (z : Z) : cast dt dt z = z.
Proof.
  unfold cast, dtype_eqb. rewrite Bool.eqb_reflx, Pos.eqb_refl. reflexivity.
Qed.

Lemma map_map_shape {A B : Type} (f : A -> B) (r c : nat) (a : list (list A)) :
  has_shape r c a -> has_shape r c (map (map f) a).
Proof.
  intros [L F]. split; [rewrite length_map; exact L |].
  apply Forall_forall. intros row I. apply in_map_iff in I.
  destruct I as [row' [<- I]]. rewrite length_map.
  rewrite Forall_forall in F. apply F. exact I.
Qed.

(** The transposed buffer of a slice of [r] rows and [c] columns, with [f]
    applied to every sample, is what the assignment stores. *)
Lemma assigned_transposed {B : Type} (f : Z -> B) (r c : nat)
    (a : list (list Z)) (x : list (list B)) :
  has_shape r c a ->
  assigned_plane c r (map (map f) (transpose 0%Z a)) = Ok x ->
  x = map (map f) (transpose 0%Z a).
Proof.
  intros H. apply assigned_plane_conforming.
  destruct r as [| r'].
  - left. destruct H as [L _]. destruct a; [reflexivity | discriminate].
  - right. apply map_map_shape. apply transpose_shape; [exact H | lia].
Qed.

Lemma transposed_entry {B : Type} (f : Z -> B) (default : B) (r c : nat)
    (a : list (list Z)) (i j : nat) :
  has_shape r c a -> (i < c)%nat -> (j < r)%nat ->
  nth j (nth i (map (map f) (transpose 0%Z a)) []) default
  = f (nth i (nth j a []) 0%Z).
Proof.
  intros H I J.
  assert (R : (0 < r)%nat) by lia.
  pose proof (transpose_shape 0%Z r c a H R) as Ht.
  rewrite (nth_map_in_range _ _ _ []) by (destruct Ht as [L _]; lia).
  rewrite (nth_map_in_range _ _ _ 0%Z)
    by (rewrite (has_shape_row c r _ i Ht I); exact J).
  rewrite (transpose_entry 0%Z r c a i j H I J). reflexivity.
Qed.

(** *** What validation establishes *)

Lemma check_properties_ok (ds : list Dataset) (names : list string) :
  check_properties ds names = Ok tt <->
  Forall (fun name => _slice_attribute_equal ds name = Ok tt) names.
Proof.
  induction names as [| name names IH]; cbn [check_properties].
  - split; [constructor | reflexivity].
  - destruct (_slice_attribute_equal ds name) as [[] |] eqn:E; cbv [rbind].
    + rewrite IH. split; [intros K; constructor; assumption |].
      intros K. inversion K. assumption.
    + split; [discriminate |]. intros K. inversion K. congruence.
Qed.

Lemma validated_attribute (first : Dataset) (others : list Dataset)
    (name : string) :
  check_properties (first :: others) invariant_properties = Ok tt ->
  In name invariant_properties ->
  String.eqb name "SeriesInstanceUID" = false ->
  Forall (fun d => _lsts_roughly_equal (getattr d name) (getattr first name)
                   = Ok true) others.
Proof.
  intros C I N. apply check_properties_ok in C.
  rewrite Forall_forall in C. specialize (C name I).
  unfold _slice_attribute_equal in C. rewrite N in C.
  apply compare_with_initial_ok. exact C.
Qed.

Lemma roughly_equal_int_fields (a b : option Z) :
  _lsts_roughly_equal (opt_value VInt a) (opt_value VInt b) = Ok true ->
  a = b.
Proof.
  destruct a as [m |], b as [n |];
    cbv [opt_value _lsts_roughly_equal is_iterable negb py_eq];
    intros H; try discriminate; [| reflexivity].
  injection H as H. apply Z.eqb_eq in H. congruence.
Qed.

Lemma validated_int_field (field : Dataset -> option Z) (name : string)
    (first : Dataset) (others : list Dataset) (d : Dataset) :
  (forall x, getattr x name = opt_value VInt (field x)) ->
  In name invariant_properties ->
  String.eqb name "SeriesInstanceUID" = false ->
  check_properties (first :: others) invariant_properties = Ok tt ->
  In d (first :: others) -> field d = field first.
Proof.
  intros G I N C [<- | D]; [reflexivity |].
  pose proof (validated_attribute first others name C I N) as F.
  rewrite Forall_forall in F. specialize (F d D). rewrite !G in F.
  apply roughly_equal_int_fields. exact F.
Qed.

Lemma validated_Rows (first : Dataset) (others : list Dataset) (d : Dataset) :
  check_properties (first :: others) invariant_properties = Ok tt ->
  In d (first :: others) -> Rows d = Rows first.
Proof.
  apply (validated_int_field Rows "Rows"); try reflexivity.
  unfold invariant_properties; cbn [In]; intuition.
Qed.

Lemma validated_Columns (first : Dataset) (others : list Dataset)
    (d : Dataset) :
  check_properties (first :: others) invariant_properties = Ok tt ->
  In d (first :: others) -> Columns d = Columns first.
Proof.
  apply (validated_int_field Columns "Columns"); try reflexivity.
  unfold invariant_properties; cbn [In]; intuition.
Qed.

Lemma validated_BitsAllocated (first : Dataset) (others : list Dataset)
    (d : Dataset) :
  check_properties (first :: others) invariant_properties = Ok tt ->
  In d (first :: others) -> BitsAllocated d = BitsAllocated first.
Proof.
  apply (validated_int_field BitsAllocated "BitsAllocated"); try reflexivity.
  unfold invariant_properties; cbn [In]; intuition.
Qed.

Lemma validated_PixelRepresentation (first : Dataset) (others : list Dataset)
    (d : Dataset) :
  check_properties (first :: others) invariant_properties = Ok tt ->
  In d (first :: others) -> PixelRepresentation d = PixelRepresentation first.
Proof.
  apply (validated_int_field PixelRepresentation "PixelRepresentation");
    try reflexivity.
  unfold invariant_properties; cbn [In]; intuition.
Qed.

Lemma Exists_permutation {A : Type} (P : A -> Prop) (l l' : list A) :
  Permutation l l' -> Exists P l -> Exists P l'.
Proof.
  intros Pm H. apply Exists_exists in H. destruct H as [x [I H]].
  apply Exists_exists. exists x. split; [| exact H].
  eapply Permutation_in; eassumption.
Qed.

Lemma nth_of_map {A B : Type} (g : A -> B) (l : list A) (k : nat) (x : A)
    (default : B) :
  nth_error l k = Some x -> nth k (map g l) default = g x.
Proof.
  intros H. apply nth_error_nth. apply map_nth_error. exact H.
Qed.

(** C3.  When the entry operation returns, for a series whose pixel buffers
    conform to the data model: if some slice carries a rescale slope or
    intercept (the attribute is present with a value that is not empty), the
    volume is a 4-byte float array and every voxel [i, j, k] is
    [pixel_array[j, i] * slope + intercept] of the k-th sorted slice, with
    slope 1 and intercept 0 standing in for an absent or empty attribute;
    otherwise the element type is that of the pixel buffer of the first
    slice of the input and every voxel [i, j, k] is [pixel_array[j, i]] of
    the k-th sorted slice. *)
Theorem merged_voxels (ds : list Dataset) (vox : voxels) (transform : matrix) :
  outcome (combine_slices ds) = Ok (vox, transform) ->
  pixel_buffers_conform ds ->
  exists sorted first num_rows num_columns,
    _sort_by_slice_spacing ds = Ok sorted
    /\ first_item ds = Ok first
    /\ Rows first = Some (Z.of_nat num_rows)
    /\ Columns first = Some (Z.of_nat num_columns)
    /\ (Exists carries_rescale ds ->
        exists planes,
          vox = VoxelsFloat32 (num_columns, num_rows, List.length ds) planes
          /\ List.length planes = List.length ds
          /\ forall k d i j,
               nth_error sorted k = Some d ->
               (i < num_columns)%nat -> (j < num_rows)%nat ->
               voxel 0 planes i j k
               = Qc_of_Z (pixel d j i) * slope_of d + intercept_of d)
    /\ (~ Exists carries_rescale ds ->
        exists planes,
          vox = VoxelsNative (arr_dtype (pixel_array first))
                             (num_columns, num_rows, List.length ds) planes
          /\ List.length planes = List.length ds
          /\ forall k d i j,
               nth_error sorted k = Some d ->
               (i < num_columns)%nat -> (j < num_rows)%nat ->
               voxel 0%Z planes i j k = pixel d j i).
Proof.
  intros H [Shape Types].
  apply combine_slices_ok in H. destruct H as (Hne & V & M & _).
  apply validate_grid_ok in V. destruct V as ((C & _) & _).
  destruct ds as [| first others]; [contradiction |].
  unfold _merge_slice_pixel_arrays in M. cbv [first_item rbind] in M.
  destruct (Rows first) as [num_rows |] eqn:Rw; cbv [attr] in M;
    [| discriminate].
  destruct (Columns first) as [num_columns |] eqn:Cl; [| discriminate].
  destruct (_sort_by_slice_spacing (first :: others)) as [sorted |] eqn:S;
    [| discriminate].
  destruct (sort_by_slice_spacing_sound _ _ S) as (_ & _ & _ & _ & _ & Pm & _).
  destruct (dimension num_columns) as [c |] eqn:Dc;
    [| destruct (existsb _ sorted); discriminate].
  destruct (dimension num_rows) as [r |] eqn:Dr;
    [| destruct (existsb _ sorted); discriminate].
  apply dimension_of_nat in Dc, Dr. subst num_rows num_columns.
  assert (Sh : forall d, In d sorted ->
                 has_shape r c (arr_rows (pixel_array d))).
  { intros d I. apply (Permutation_in _ (Permutation_sym Pm)) in I.
    destruct (Shape d I) as (r' & c' & Rd & Cd & Hs).
    rewrite (validated_Rows first others d C I), Rw in Rd.
    rewrite (validated_Columns first others d C I), Cl in Cd.
    injection Rd as Rd. injection Cd as Cd.
    apply Nat2Z.inj in Rd, Cd. subst. exact Hs. }
  assert (Dt : forall d, In d sorted ->
                 arr_dtype (pixel_array d) = arr_dtype (pixel_array first)).
  { intros d I. apply (Permutation_in _ (Permutation_sym Pm)) in I.
    apply Types; [exact I | left; reflexivity
                 | apply (validated_BitsAllocated first others d C I)
                 | apply (validated_PixelRepresentation first others d C I)]. }
  exists sorted, first, r, c.
  split; [first [exact S | reflexivity] |]. split; [reflexivity |].
  split; [first [exact Rw | reflexivity] |].
  split; [first [exact Cl | reflexivity] |].
  destruct (existsb _requires_rescaling sorted) eqn:E.
  - destruct (map_result _ sorted) as [planes |] eqn:Mr; [| discriminate].
    injection M as <-. split.
    + intros _.
      assert (Pl : planes = map rescaled_plane sorted).
      { apply (map_result_map _ _ _ _ ) with (2 := Mr). intros d x I.
        apply (assigned_transposed _ r c). apply Sh. exact I. }
      exists planes. split; [reflexivity |].
      split; [rewrite Pl, length_map; symmetry; apply Permutation_length;
              exact Pm |].
      intros k d i j K I J. unfold voxel. rewrite Pl.
      rewrite (nth_of_map _ _ _ d _ K). unfold rescaled_plane.
      rewrite (transposed_entry _ _ r c)
        by (try apply Sh; try assumption; eapply nth_error_In; exact K).
      reflexivity.
    + intros N. exfalso. apply N.
      apply (Exists_permutation _ _ _ (Permutation_sym Pm)).
      apply existsb_requires_rescaling. exact E.
  - destruct (map_result _ sorted) as [planes |] eqn:Mr; [| discriminate].
    injection M as <-. split.
    + intros X. exfalso.
      apply (Exists_permutation _ _ _ Pm) in X.
      apply existsb_requires_rescaling in X. congruence.
    + intros _.
      assert (Pl : planes
                   = map (native_plane (arr_dtype (pixel_array first)))
                         sorted).
      { apply (map_result_map _ _ _ _ ) with (2 := Mr). intros d x I.
        apply (assigned_transposed _ r c). apply Sh. exact I. }
      exists planes. split; [reflexivity |].
      split; [rewrite Pl, length_map; symmetry; apply Permutation_length;
              exact Pm |].
      intros k d i j K I J. unfold voxel. rewrite Pl.
      rewrite (nth_of_map _ _ _ d _ K). unfold native_plane.
      rewrite (transposed_entry _ _ r c)
        by (try apply Sh; try assumption; eapply nth_error_In; exact K).
      rewrite (Dt d) by (eapply nth_error_In; exact K).
      apply cast_same.
Qed.

Lemma merged_voxels_witness :
  outcome (combine_slices rescaled_series)
  = Ok (fst (returned rescaled_series), snd (returned rescaled_series))
  /\ pixel_buffers_conform rescaled_series
  /\ Exists carries_rescale rescaled_series
  /\ exists num_columns num_rows planes,
       fst (returned rescaled_series)
       = VoxelsFloat32 (num_columns, num_rows, 2%nat) planes.
Proof.
  assert (H : outcome (combine_slices rescaled_series)
              = Ok (fst (returned rescaled_series),
                    snd (returned rescaled_series)))
    by (vm_compute; reflexivity).
  assert (W : pixel_buffers_conform rescaled_series).
  { split.
    - intros d [<- | [<- | []]]; exists 2%nat, 3%nat;
        (split; [reflexivity |]); (split; [reflexivity |]);
        (split; [reflexivity |]); repeat constructor.
    - intros d d' [<- | [<- | []]] [<- | [<- | []]] _ _; reflexivity. }
  assert (X : Exists carries_rescale rescaled_series).
  { left. left. eexists. reflexivity. }
  split; [exact H |]. split; [exact W |]. split; [exact X |].
  destruct (merged_voxels _ _ _ H W)
    as (sorted & first & num_rows & num_columns & _ & _ & _ & _ & R & _).
  destruct (R X) as (planes & E & _).
  exists num_columns, num_rows, planes. exact E.
Defined.

(** ** Reordering a series *)

Lemma roughly_equal_loop_refl (l : list ascii) :
  roughly_equal_loop (combine (map EChar l) (map EChar l)) = Ok true.
Proof.
  induction l as [| c l IH]; [reflexivity |].
  cbn [map combine roughly_equal_loop]. cbv [is_float py_float].
  destruct (digit_value c) as [d |]; cbv [rbind].
  - rewrite margin_test, within_margin_refl. cbv [negb]. exact IH.
  - cbv [element_ne]. rewrite Ascii.eqb_refl. cbv [negb]. exact IH.
Qed.

Lemma forallb_within_refl (l : list Qc) :
  forallb (fun p => within_margin (fst p) (snd p)) (combine l l) = true.
Proof.
  induction l as [| a l IH]; [reflexivity |].
  cbn [combine forallb fst snd]. rewrite within_margin_refl, IH. reflexivity.
Qed.

Lemma roughly_equal_refl (v : value) : _lsts_roughly_equal v v = Ok true.
Proof.
  destruct v as [| n | s | l].
  - reflexivity.
  - cbv [_lsts_roughly_equal is_iterable negb py_eq]. rewrite Z.eqb_refl.
    reflexivity.
  - cbv [_lsts_roughly_equal is_iterable negb py_len rbind py_iter].
    rewrite Nat.eqb_refl. cbv [negb]. apply roughly_equal_loop_refl.
  - rewrite roughly_equal_sequences. cbv [values_agree].
    rewrite Nat.eqb_refl, forallb_within_refl. reflexivity.
Qed.

Lemma values_agree_eq (a b : value) :
  (forall l, a <> VSeq l) -> values_agree a b = true -> a = b.
Proof.
  intros N. destruct a as [| m | s | l], b as [| n | t | k];
    cbv [values_agree py_eq]; intros H; try discriminate;
    try reflexivity.
  - rewrite within_margin_integers in H. apply Z.eqb_eq in H. congruence.
  - apply String.eqb_eq in H. congruence.
  - exfalso. eapply N. reflexivity.
Qed.

(** The attributes of the invariant set whose value is not a sequence. *)
Lemma invariant_scalars (name : string) (d : Dataset) (l : list Qc) :
  In name invariant_properties ->
  name <> "ImageOrientationPatient" -> name <> "PixelSpacing" ->
  getattr d name <> VSeq l.
Proof.
  unfold invariant_properties. cbn [In].
  intros [<- | [<- | [<- | [<- | [<- | [<- | [<- | [<- | [<- | [<- | [<- | []]]]]]]]]]]]
    N1 N2; try congruence; cbv [getattr String.eqb Ascii.eqb Bool.eqb opt_value];
    match goal with
    | |- context [match ?o with Some _ => _ | None => _ end] => destruct o
    end; discriminate.
Qed.

Lemma validated_getattr (first : Dataset) (others : list Dataset)
    (name : string) (d : Dataset) :
  check_properties (first :: others) invariant_properties = Ok tt ->
  uniform_geometry (first :: others) ->
  In name invariant_properties ->
  String.eqb name "SeriesInstanceUID" = false ->
  In d (first :: others) ->
  getattr d name = getattr first name.
Proof.
  intros C U I N [<- | D]; [reflexivity |].
  destruct (U d first (or_intror D) (or_introl eq_refl)) as [Uo Us].
  destruct (string_dec name "ImageOrientationPatient") as [-> | N1].
  { cbv [getattr String.eqb Ascii.eqb Bool.eqb]. rewrite Uo. reflexivity. }
  destruct (string_dec name "PixelSpacing") as [-> | N2].
  { cbv [getattr String.eqb Ascii.eqb Bool.eqb]. rewrite Us. reflexivity. }
  pose proof (validated_attribute first others name C I N) as F.
  rewrite Forall_forall in F. specialize (F d D).
  apply values_agree_eq.
  - intros l. apply invariant_scalars; assumption.
  - symmetry. apply roughly_equal_agrees; [apply getattr_same_kind | exact F].
Qed.

Lemma check_properties_permutation (ds ds' : list Dataset) :
  check_properties ds invariant_properties = Ok tt ->
  uniform_geometry ds ->
  Permutation ds ds' ->
  check_properties ds' invariant_properties = Ok tt.
Proof.
  intros C U P. apply check_properties_ok. apply Forall_forall.
  intros name I. unfold _slice_attribute_equal.
  destruct (String.eqb name "SeriesInstanceUID") eqn:N; [reflexivity |].
  destruct ds as [| first others].
  { apply Permutation_nil in P. subst. apply check_properties_ok in C.
    rewrite Forall_forall in C. specialize (C name I).
    unfold _slice_attribute_equal in C. rewrite N in C. exact C. }
  destruct ds' as [| first' others'];
    [apply Permutation_sym, Permutation_nil in P; discriminate |].
  cbv [first_item rbind tl]. apply compare_with_initial_ok.
  apply Forall_forall. intros d D.
  assert (E : forall x, In x (first' :: others') ->
                getattr x name = getattr first name).
  { intros x X. apply (validated_getattr first others name x C U I N).
    eapply Permutation_in; [symmetry; exact P | exact X]. }
  rewrite (E d (or_intror D)), (E first' (or_introl eq_refl)).
  apply roughly_equal_refl.
Qed.

Lemma map_result_keys (io : vec3 * vec3) (ds : list Dataset)
    (positions : list Qc) :
  map_result
    (fun d =>
       position <- attr "ImagePositionPatient" (ImagePositionPatient d);;
       Ok (Np.dot (Np.cross (fst io) (snd io)) position)) ds = Ok positions
  <-> positions = map (slice_key io) ds
      /\ Forall (fun d => ImagePositionPatient d <> None) ds.
Proof.
  revert positions. induction ds as [| d ds IH]; intros positions;
    cbn [map_result map].
  - split; [intros H; injection H as <-; split; [reflexivity | constructor]
           | intros [-> _]; reflexivity].
  - unfold slice_key at 1.
    destruct (ImagePositionPatient d) as [position |] eqn:E; cbv [attr rbind].
    + destruct (map_result _ ds) as [rest |].
      * specialize (IH rest). split.
        -- intros H. injection H as <-.
           destruct (proj1 IH eq_refl) as [-> F].
           split; [reflexivity | constructor; [congruence | exact F]].
        -- intros [-> F]. inversion F as [| ? ? _ F']; subst.
           destruct (proj1 IH eq_refl) as [-> _]. reflexivity.
      * split; [discriminate |]. intros [_ F].
        inversion F as [| ? ? _ F']; subst.
        specialize (IH (map (slice_key io) ds)).
        destruct IH as [_ IH]. discriminate IH. split; [reflexivity | exact F'].
    + split; [discriminate |]. intros [_ F]. inversion F. congruence.
Qed.

Lemma slice_positions_keys (ds : list Dataset) (first : Dataset)
    (io : vec3 * vec3) (positions : list Qc) :
  first_item ds = Ok first ->
  ImageOrientationPatient first = Some io ->
  (_slice_positions ds = Ok positions
   <-> positions = map (slice_key io) ds
       /\ Forall (fun d => ImagePositionPatient d <> None) ds).
Proof.
  intros F O. unfold _slice_positions. rewrite F. cbv [rbind]. rewrite O.
  cbv [attr _extract_cosines]. apply map_result_keys.
Qed.

Lemma combine_map_keys {A B : Type} (f : A -> B) (l : list A) :
  combine (map f l) l = map (fun x => (f x, x)) l.
Proof. induction l as [| x l IH]; cbn; congruence. Qed.

Lemma check_for_missing_slices_permutation (p p' : list Qc) :
  Permutation p p' ->
  _check_for_missing_slices p' = _check_for_missing_slices p.
Proof.
  intros P. unfold _check_for_missing_slices.
  destruct (sorted_floats_defined p) as [sp S].
  rewrite S, (sorted_floats_permutation p p' sp S P). reflexivity.
Qed.

Lemma first_item_in {A : Type} (xs : list A) (x : A) :
  first_item xs = Ok x -> In x xs.
Proof.
  destruct xs; cbn; [discriminate |]. intros H. injection H as <-.
  left. reflexivity.
Qed.

Lemma first_item_permutation {A : Type} (xs ys : list A) (x : A) :
  first_item xs = Ok x -> Permutation xs ys ->
  exists y, first_item ys = Ok y /\ In y xs.
Proof.
  intros F P. destruct ys as [| y ys].
  - apply Permutation_sym, Permutation_nil in P. subst. discriminate.
  - exists y. split; [reflexivity |].
    eapply Permutation_in; [symmetry; exact P | left; reflexivity].
Qed.

(** C4, as amended.  For a series that the entry operation accepts, whose
    slices all carry the same orientation and the same pixel spacing and
    whose pixel element types are determined by the encoding attributes, the
    entry operation returns the same volume and the same transform on every
    permutation of the series. *)
Theorem permutation_invariance (ds ds' : list Dataset) (vox : voxels)
    (transform : matrix) :
  outcome (combine_slices ds) = Ok (vox, transform) ->
  Permutation ds ds' ->
  uniform_geometry ds ->
  pixel_types_determined ds ->
  outcome (combine_slices ds') = Ok (vox, transform).
Proof.
  intros H P U Ty.
  apply combine_slices_ok in H. destruct H as (Hne & V & M & T).
  pose proof (validated_length ds V) as L.
  apply validate_grid_ok in V.
  destruct V as ((C & first & io & F & O & Vo) & positions & Ps & Ck).
  destruct (first_item_permutation _ _ _ F P) as (first' & F' & I').
  pose proof (first_item_in _ _ F) as I.
  assert (O' : ImageOrientationPatient first' = Some io).
  { rewrite <- O. apply (U first' first I' I). }
  destruct (proj1 (slice_positions_keys ds first io positions F O) Ps)
    as [Pk Fp].
  assert (Ps' : _slice_positions ds' = Ok (map (slice_key io) ds')).
  { apply (slice_positions_keys ds' first' io _ F' O'). split;
      [reflexivity |].
    eapply Permutation_Forall; [exact P | exact Fp]. }
  assert (Pp : Permutation positions (map (slice_key io) ds'))
    by (rewrite Pk; apply Permutation_map; exact P).
  assert (Len : List.length ds' = List.length ds)
    by (symmetry; apply Permutation_length; exact P).
  (* the sorter *)
  assert (So : _sort_by_slice_spacing ds' = _sort_by_slice_spacing ds).
  { unfold _sort_by_slice_spacing in *. rewrite Ps, Ps'. cbv [rbind].
    destruct (py_sorted tuple_lt (combine positions ds)) as [pairs |] eqn:S.
    - rewrite (sorted_tuples_permutation _ (combine (map (slice_key io) ds')
                                                     ds') _ S);
        [reflexivity |].
      rewrite Pk, !combine_map_keys. apply Permutation_map. exact P.
    - unfold _merge_slice_pixel_arrays in M. rewrite F in M.
      cbv [rbind] in M.
      destruct (attr _ (Rows first)); [| discriminate].
      destruct (attr _ (Columns first)); [| discriminate].
      unfold _sort_by_slice_spacing in M. rewrite Ps in M. cbv [rbind] in M.
      rewrite S in M. discriminate. }
  (* the spacing *)
  assert (Sp : _slice_spacing ds' = _slice_spacing ds).
  { unfold _slice_spacing. rewrite Len, Ps, Ps'.
    destruct (1 <? List.length ds)%nat; [| reflexivity]. cbv [rbind].
    destruct (sorted_floats_defined positions) as [sp S].
    rewrite S, (sorted_floats_permutation _ _ sp S Pp). reflexivity. }
  rewrite combine_slices_outcome.
  destruct ds' as [| d' rest']; [discriminate |].
  (* validation *)
  assert (V' : outcome (_validate_slices_form_uniform_grid (d' :: rest'))
               = Ok tt).
  { rewrite validate_grid_outcome.
    rewrite (check_properties_permutation ds (d' :: rest') C U P).
    rewrite F'. cbv [rbind]. rewrite O'. cbv [attr]. rewrite Vo, Ps'.
    rewrite (check_for_missing_slices_permutation positions _ Pp).
    exact Ck. }
  rewrite V'.
  (* merging *)
  assert (M' : _merge_slice_pixel_arrays (d' :: rest') = Ok vox).
  { rewrite <- M. unfold _merge_slice_pixel_arrays. rewrite F, F', So, Len.
    cbv [rbind]. destruct ds as [| d0 rest0]; [discriminate |].
    injection F as ->.
    rewrite (validated_Rows first rest0 first' C I').
    rewrite (validated_Columns first rest0 first' C I').
    rewrite (Ty first' first I' I
               (validated_BitsAllocated first rest0 first' C I')
               (validated_PixelRepresentation first rest0 first' C I')).
    reflexivity. }
  rewrite M'.
  assert (T' : _ijk_to_patient_xyz_transform_matrix (d' :: rest')
               = Ok transform).
  { rewrite <- T. unfold _ijk_to_patient_xyz_transform_matrix.
    rewrite So, Sp. reflexivity. }
  rewrite T'. reflexivity.
Qed.

Lemma permutation_invariance_witness :
  outcome (combine_slices [slice_b; slice_a])
  = Ok (fst (returned [slice_b; slice_a]), snd (returned [slice_b; slice_a]))
  /\ Permutation [slice_b; slice_a] [slice_a; slice_b]
  /\ uniform_geometry [slice_b; slice_a]
  /\ pixel_types_determined [slice_b; slice_a]
  /\ outcome (combine_slices [slice_a; slice_b])
     = Ok (fst (returned [slice_b; slice_a]),
           snd (returned [slice_b; slice_a])).
Proof.
  assert (H : outcome (combine_slices [slice_b; slice_a])
              = Ok (fst (returned [slice_b; slice_a]),
                    snd (returned [slice_b; slice_a])))
    by (vm_compute; reflexivity).
  assert (P : Permutation [slice_b; slice_a] [slice_a; slice_b])
    by apply perm_swap.
  assert (U : uniform_geometry [slice_b; slice_a])
    by (intros d d' [<- | [<- | []]] [<- | [<- | []]]; split; reflexivity).
  assert (Ty : pixel_types_determined [slice_b; slice_a])
    by (intros d d' [<- | [<- | []]] [<- | [<- | []]] _ _; reflexivity).
  split; [exact H |]. split; [exact P |]. split; [exact U |].
  split; [exact Ty |].
  exact (permutation_invariance _ _ _ _ H P U Ty).
Defined.

(** C4, as stated, fails.  The series [slice_a; tilted_slice] passes
    validation in both orders, because the orientations agree within the
    tolerance 0.001.  The positions are projected on the normal of the
    first slice of the input, which differs between the two orders, so the
    mean spacing in the third column of the transform is 5 in one order
    and 39/8 in the other. *)
Lemma permutation_counterexample :
  Permutation [slice_a; tilted_slice] [tilted_slice; slice_a]
  /\ outcome (combine_slices [slice_a; tilted_slice])
     = Ok (returned [slice_a; tilted_slice])
  /\ outcome (combine_slices [tilted_slice; slice_a])
     = Ok (returned [tilted_slice; slice_a])
  /\ map this (column 2 (snd (returned [slice_a; tilted_slice])))
     = [0 # 1; 0 # 1; 5 # 1; 0 # 1]%Q
  /\ map this (column 2 (snd (returned [tilted_slice; slice_a])))
     = [0 # 1; 0 # 1; 39 # 8; 0 # 1]%Q
  /\ outcome (combine_slices [tilted_slice; slice_a])
     <> outcome (combine_slices [slice_a; tilted_slice]).
Proof.
  assert (A : map this (column 2 (snd (returned [slice_a; tilted_slice])))
              = [0 # 1; 0 # 1; 5 # 1; 0 # 1]%Q) by (vm_compute; reflexivity).
  assert (B : map this (column 2 (snd (returned [tilted_slice; slice_a])))
              = [0 # 1; 0 # 1; 39 # 8; 0 # 1]%Q) by (vm_compute; reflexivity).
  assert (Oa : outcome (combine_slices [slice_a; tilted_slice])
               = Ok (returned [slice_a; tilted_slice]))
    by (vm_compute; reflexivity).
  assert (Ob : outcome (combine_slices [tilted_slice; slice_a])
               = Ok (returned [tilted_slice; slice_a]))
    by (vm_compute; reflexivity).
  split; [apply perm_swap |]. split; [exact Oa |]. split; [exact Ob |].
  split; [exact A |]. split; [exact B |].
  rewrite Oa, Ob. revert A B.
  generalize (returned [slice_a; tilted_slice])
             (returned [tilted_slice; slice_a]).
  intros ra rb A B E. injection E as ->. rewrite A in B. discriminate.
Qed.

(** * Further properties of the code *)

(** ** Order on the rationals through the reals *)

Lemma Qc2R_le (x y : Qc) : x <= y <-> (Qc2R x <= Qc2R y)%R.
Proof. rewrite <- Qc_leb_le. apply Qc_leb_Rle. Qed.


Lemma Qc2R_eq (x y : Qc) : x = y <-> Qc2R x = Qc2R y.
Proof.
  split; [intros ->; reflexivity |]. intros H.
  apply Qc_is_canon, eqR_Qeq. exact H.
Qed.

Lemma tol1 : Qc2R tol_1e_1 = (1 / 10)%R.
Proof. unfold Qc2R, tol_1e_1. simpl. unfold Q2R. simpl. lra. Qed.

Lemma tol5 : Qc2R tol_1e_5 = (1 / 100000)%R.
Proof. unfold Qc2R, tol_1e_5. simpl. unfold Q2R. simpl. lra. Qed.

(** ** The spacing check on sorted positions *)

Lemma sorted_floats_spec (xs r : list Qc) :
  py_sorted float_lt xs = Ok r -> Permutation xs r /\ StronglySorted Qcle r.
Proof.
  intros S. split; [exact (py_sorted_perm _ _ _ S) |].
  exact (py_sorted_sorted float_lt Qcle float_lt_true float_lt_false
                          Qcle_trans _ _ S).
Qed.

Lemma sorted_floats_of_sorted (l : list Qc) :
  StronglySorted Qcle l -> py_sorted float_lt l = Ok l.
Proof.
  intros L. destruct (sorted_floats_defined l) as [r S]. rewrite S. f_equal.
  destruct (sorted_floats_spec _ _ S) as [P R].
  symmetry. exact (sorted_unique Qcle Qcle_antisym _ _ L R P).
Qed.

Lemma sorted_floats_of_permutation (xs l : list Qc) :
  Permutation xs l -> StronglySorted Qcle l -> py_sorted float_lt xs = Ok l.
Proof.
  intros P L. apply (sorted_floats_permutation l xs l);
    [apply sorted_floats_of_sorted; exact L | symmetry; exact P].
Qed.


Lemma deviates_from_first_false (tol reference : Qc) (rest : list Qc) :
  deviates_from_first tol (reference :: rest) = false <->
  Forall (fun d => (Rabs (Qc2R d - Qc2R reference)
                    <= Qc2R tol * Rabs (Qc2R reference))%R)
         (reference :: rest).
Proof.
  unfold deviates_from_first. generalize (reference :: rest) as l.
  induction l as [| d l IH]; cbn [existsb].
  - split; [constructor | reflexivity].
  - rewrite orb_false_iff, IH, Qc_ltb_ge, Qc2R_le, Qc2R_mult, !py_abs_R,
      Qc2R_minus.
    split; [intros [H F]; constructor; assumption
           | intros F; inversion F; subst; split; assumption].
Qed.

Lemma deviates_from_first_repeat (tol step : Qc) (n : nat) :
  0 <= tol -> deviates_from_first tol (repeat step (S n)) = false.
Proof.
  intros T. cbn [repeat]. apply deviates_from_first_false.
  change (step :: repeat step n) with (repeat step (S n)).
  apply Forall_forall. intros d D. apply repeat_spec in D. subst d.
  apply Qc2R_le in T. rewrite Qc2R_0 in T.
  replace (Qc2R step - Qc2R step)%R with 0%R by lra. rewrite Rabs_R0.
  pose proof (Rabs_pos (Qc2R step)). nra.
Qed.

Lemma tol_1e_1_nonneg : 0 <= tol_1e_1.
Proof. apply Qc2R_le. rewrite Qc2R_0, tol1. lra. Qed.

Lemma tol_1e_5_nonneg : 0 <= tol_1e_5.
Proof. apply Qc2R_le. rewrite Qc2R_0, tol5. lra. Qed.

Lemma check_passes_on_constant_differences (positions sp : list Qc)
    (step : Qc) (n : nat) :
  py_sorted float_lt positions = Ok sp ->
  Np.diff sp = repeat step (S n) ->
  _check_for_missing_slices positions = ([], Ok tt).
Proof.
  intros So D.
  rewrite (check_for_missing_slices_run positions sp step (repeat step n) So D).
  change (step :: repeat step n) with (repeat step (S n)).
  rewrite (deviates_from_first_repeat _ _ _ tol_1e_1_nonneg).
  rewrite (deviates_from_first_repeat _ _ _ tol_1e_5_nonneg).
  reflexivity.
Qed.

(** X1.  The spacing check accepts every series of exactly two positions, and
    logs nothing: the only difference is its own reference. *)
Theorem two_positions_always_pass (p q : Qc) :
  _check_for_missing_slices [p; q] = ([], Ok tt).
Proof.
  destruct (sorted_floats_defined [p; q]) as [sp S].
  destruct (sorted_floats_spec _ _ S) as [P _].
  apply Permutation_length_2_inv in P.
  destruct P as [-> | ->];
    eapply (check_passes_on_constant_differences _ _ _ 0%nat S); reflexivity.
Qed.

Lemma evenly_spaced_lower_bound (step : Qc) (n : nat) (start x : Qc) :
  0 <= step -> In x (evenly_spaced start step n) -> start <= x.
Proof.
  intros H. revert start.
  induction n as [| n IH]; intros start; cbn [evenly_spaced In];
    [intros [] |].
  intros [<- | I]; [apply Qcle_refl |].
  apply IH in I. apply Qc2R_le. apply Qc2R_le in I, H.
  rewrite Qc2R_plus, ?Qc2R_0 in *. lra.
Qed.

Lemma evenly_spaced_sorted (step : Qc) (n : nat) (start : Qc) :
  0 <= step -> StronglySorted Qcle (evenly_spaced start step n).
Proof.
  intros H. revert start.
  induction n as [| n IH]; intros start; cbn [evenly_spaced];
    constructor; [apply IH |].
  apply Forall_forall. intros x I.
  apply evenly_spaced_lower_bound in I; [| exact H].
  apply Qc2R_le. apply Qc2R_le in I, H.
  rewrite Qc2R_plus, ?Qc2R_0 in *. lra.
Qed.

Lemma evenly_spaced_diff (step : Qc) (n : nat) (start : Qc) :
  Np.diff (evenly_spaced start step (S n)) = repeat step n.
Proof.
  revert start. induction n as [| n IH]; intros start; [reflexivity |].
  cbn [evenly_spaced Np.diff repeat].
  f_equal; [| exact (IH (start + step))].
  apply Qc2R_eq. rewrite Qc2R_minus, Qc2R_plus. lra.
Qed.

(** X2.  A series of at least two positions that are evenly spaced, given in any
    order, passes the spacing check and logs no warning; the step may be
    zero. *)
Theorem evenly_spaced_positions_pass (positions : list Qc) (start step : Qc)
    (n : nat) :
  0 <= step ->
  (2 <= n)%nat ->
  Permutation positions (evenly_spaced start step n) ->
  _check_for_missing_slices positions = ([], Ok tt).
Proof.
  intros H N P.
  destruct n as [| [| n]]; [lia | lia |].
  apply (check_passes_on_constant_differences positions
           (evenly_spaced start step (S (S n))) step n).
  - apply sorted_floats_of_permutation;
      [exact P | apply evenly_spaced_sorted; exact H].
  - apply evenly_spaced_diff.
Qed.

Lemma evenly_spaced_positions_pass_witness :
  0 <= Qc_of_Z 5
  /\ (2 <= 3)%nat
  /\ Permutation [Qc_of_Z 10; Qc_of_Z 0; Qc_of_Z 5]
                 (evenly_spaced (Qc_of_Z 0) (Qc_of_Z 5) 3)
  /\ _check_for_missing_slices [Qc_of_Z 10; Qc_of_Z 0; Qc_of_Z 5]
     = ([], Ok tt).
Proof.
  assert (H : 0 <= Qc_of_Z 5) by (apply Qc_leb_le; vm_compute; reflexivity).
  assert (N : (2 <= 3)%nat) by lia.
  assert (P : Permutation [Qc_of_Z 10; Qc_of_Z 0; Qc_of_Z 5]
                          (evenly_spaced (Qc_of_Z 0) (Qc_of_Z 5) 3)).
  { replace (evenly_spaced (Qc_of_Z 0) (Qc_of_Z 5) 3)
      with [Qc_of_Z 0; Qc_of_Z 5; Qc_of_Z 10].
    - apply perm_trans with [Qc_of_Z 0; Qc_of_Z 10; Qc_of_Z 5];
        [apply perm_swap | apply perm_skip, perm_swap].
    - cbn [evenly_spaced]. repeat f_equal; apply Qc_is_canon; reflexivity. }
  split; [exact H |]. split; [exact N |]. split; [exact P |].
  exact (evenly_spaced_positions_pass _ _ _ _ H N P).
Defined.




Lemma diff_nonempty (l : list Qc) :
  (2 <= List.length l)%nat ->
  exists reference rest, Np.diff l = reference :: rest.
Proof.
  destruct l as [| x [| y t]]; cbn [List.length]; try lia.
  intros _. cbn [Np.diff]. eauto.
Qed.

Lemma diff_short (l : list Qc) : (List.length l <= 1)%nat -> Np.diff l = [].
Proof.
  destruct l as [| x [| y t]]; cbn [List.length]; try lia; reflexivity.
Qed.

Lemma deviates_from_first_weaken (tol tol' : Qc) (l : list Qc) :
  tol <= tol' ->
  deviates_from_first tol' l = true -> deviates_from_first tol l = true.
Proof.
  intros T. destruct l as [| reference rest]; [discriminate |].
  intros H. apply not_false_iff_true. intros F.
  apply not_false_iff_true in H. apply H.
  apply deviates_from_first_false. apply deviates_from_first_false in F.
  apply Forall_forall. intros d D. rewrite Forall_forall in F.
  specialize (F d D). apply Qc2R_le in T.
  pose proof (Rabs_pos (Qc2R reference)). nra.
Qed.

Lemma tol_1e_5_below_1e_1 : tol_1e_5 <= tol_1e_1.
Proof. apply Qc2R_le. rewrite tol1, tol5. lra. Qed.

Lemma spacing_check_cases (positions : list Qc) :
  ((List.length positions <= 1)%nat
   /\ _check_for_missing_slices positions = ([], Err IndexError))
  \/ ((2 <= List.length positions)%nat
      /\ exists sorted_positions,
           py_sorted float_lt positions = Ok sorted_positions
           /\ let w := WarnNonUniformSpacing (Np.diff sorted_positions) in
              _check_for_missing_slices positions = ([], Ok tt)
              \/ _check_for_missing_slices positions = ([w], Ok tt)
              \/ _check_for_missing_slices positions
                 = ([w], Err (DicomImportException MsgMissingSlices))).
Proof.
  destruct (sorted_floats_defined positions) as [sp So].
  destruct (sorted_floats_spec _ _ So) as [P _].
  apply Permutation_length in P.
  destruct (le_lt_dec (List.length positions) 1) as [L | L].
  - left. split; [exact L |].
    unfold _check_for_missing_slices. rewrite So. cbv [lift bind].
    rewrite diff_short by lia. reflexivity.
  - right. split; [lia |]. exists sp. split; [exact So |].
    destruct (diff_nonempty sp) as (reference & rest & D); [lia |].
    rewrite (check_for_missing_slices_run positions sp reference rest So D).
    rewrite D. cbv zeta.
    destruct (deviates_from_first tol_1e_1 (reference :: rest)) eqn:V1.
    + rewrite (deviates_from_first_weaken _ _ _ tol_1e_5_below_1e_1 V1).
      right. right. reflexivity.
    + destruct (deviates_from_first tol_1e_5 (reference :: rest));
        [right; left; reflexivity | left; reflexivity].
Qed.

(** X4.  The four ways in which the spacing check ends.  With fewer than two
    positions it raises [IndexError] on the empty array of differences.
    Otherwise it returns silently, returns after the warning, or raises
    after the warning: a rejection for missing slices is always preceded by
    the warning about the spacing. *)
Theorem spacing_check_outcomes (positions : list Qc) :
  ((List.length positions <= 1)%nat
   /\ _check_for_missing_slices positions = ([], Err IndexError))
  \/ ((2 <= List.length positions)%nat
      /\ exists sorted_positions,
           py_sorted float_lt positions = Ok sorted_positions
           /\ let w := WarnNonUniformSpacing (Np.diff sorted_positions) in
              _check_for_missing_slices positions = ([], Ok tt)
              \/ _check_for_missing_slices positions = ([w], Ok tt)
              \/ _check_for_missing_slices positions
                 = ([w], Err (DicomImportException MsgMissingSlices))).
Proof. exact (spacing_check_cases positions). Qed.

Lemma diff_app_last (l : list Qc) (p : Qc) :
  l <> [] -> Np.diff (l ++ [p]) = Np.diff l ++ [p - last l 0].
Proof.
  induction l as [| x [| y t] IH]; intros N; [contradiction | reflexivity |].
  change (Np.diff ((x :: y :: t) ++ [p]))
    with ((y - x) :: Np.diff ((y :: t) ++ [p])).
  change (Np.diff (x :: y :: t)) with ((y - x) :: Np.diff (y :: t)).
  change (last (x :: y :: t) 0) with (last (y :: t) 0).
  rewrite IH by discriminate. reflexivity.
Qed.

Lemma sorted_app_top (l : list Qc) (p : Qc) :
  StronglySorted Qcle l -> Forall (fun x => x <= p) l ->
  StronglySorted Qcle (l ++ [p]).
Proof.
  induction l as [| x l IH]; intros So F; cbn [app].
  - repeat constructor.
  - inversion So as [| ? ? So' Fx]; subst. inversion F as [| ? ? Xp F']; subst.
    constructor; [apply IH; assumption |].
    apply Forall_app. split; [exact Fx | repeat constructor; exact Xp].
Qed.

(** X5.  A series that passes the spacing check still passes once its highest
    position is left out, as long as two positions remain: the reference
    difference is the lowest one, and it is unchanged. *)
Theorem highest_position_can_be_dropped (all rest : list Qc) (top : Qc) :
  Permutation all (top :: rest) ->
  (forall x, In x rest -> x <= top) ->
  (2 <= List.length rest)%nat ->
  outcome (_check_for_missing_slices all) = Ok tt ->
  outcome (_check_for_missing_slices rest) = Ok tt.
Proof.
  intros P B L.
  destruct (sorted_floats_defined rest) as [sp So].
  destruct (sorted_floats_spec _ _ So) as [Pr Sr].
  assert (Sa : py_sorted float_lt all = Ok (sp ++ [top])).
  { apply sorted_floats_of_permutation.
    - rewrite P. rewrite <- Permutation_cons_append. apply perm_skip. exact Pr.
    - apply sorted_app_top; [exact Sr |].
      apply Forall_forall. intros x X. apply B.
      eapply Permutation_in; [symmetry; exact Pr | exact X]. }
  apply Permutation_length in Pr.
  destruct (diff_nonempty sp) as (reference & diffs & D); [lia |].
  assert (Da : Np.diff (sp ++ [top])
               = reference :: diffs ++ [top - last sp 0]).
  { rewrite diff_app_last, D; [reflexivity |]. intros ->. cbn in Pr. lia. }
  rewrite (check_for_missing_slices_run all _ _ _ Sa Da).
  rewrite (check_for_missing_slices_run rest _ _ _ So D).
  cbv [outcome snd].
  destruct (deviates_from_first tol_1e_1 (reference :: diffs ++ _)) eqn:V;
    [discriminate |].
  intros _. apply deviates_from_first_false in V.
  change (reference :: diffs ++ [top - last sp 0])
    with ((reference :: diffs) ++ [top - last sp 0]) in V.
  apply Forall_app in V. destruct V as [V _].
  apply deviates_from_first_false in V. rewrite V. reflexivity.
Qed.

Lemma highest_position_can_be_dropped_witness :
  Permutation [Qc_of_Z 20; Qc_of_Z 0; Qc_of_Z 31; Qc_of_Z 10]
              (Qc_of_Z 31 :: [Qc_of_Z 20; Qc_of_Z 0; Qc_of_Z 10])
  /\ (forall x, In x [Qc_of_Z 20; Qc_of_Z 0; Qc_of_Z 10] -> x <= Qc_of_Z 31)
  /\ (2 <= List.length [Qc_of_Z 20; Qc_of_Z 0; Qc_of_Z 10])%nat
  /\ outcome (_check_for_missing_slices
                [Qc_of_Z 20; Qc_of_Z 0; Qc_of_Z 31; Qc_of_Z 10]) = Ok tt
  /\ outcome (_check_for_missing_slices
                [Qc_of_Z 20; Qc_of_Z 0; Qc_of_Z 10]) = Ok tt.
Proof.
  assert (P : Permutation [Qc_of_Z 20; Qc_of_Z 0; Qc_of_Z 31; Qc_of_Z 10]
                (Qc_of_Z 31 :: [Qc_of_Z 20; Qc_of_Z 0; Qc_of_Z 10])).
  { apply perm_trans with [Qc_of_Z 20; Qc_of_Z 31; Qc_of_Z 0; Qc_of_Z 10];
      [apply perm_skip, perm_swap | apply perm_swap]. }
  assert (B : forall x, In x [Qc_of_Z 20; Qc_of_Z 0; Qc_of_Z 10] ->
                        x <= Qc_of_Z 31).
  { intros x [<- | [<- | [<- | []]]]; apply Qc_leb_le; vm_compute;
      reflexivity. }
  assert (L : (2 <= List.length [Qc_of_Z 20; Qc_of_Z 0; Qc_of_Z 10])%nat)
    by (cbn; lia).
  assert (A : outcome (_check_for_missing_slices
                         [Qc_of_Z 20; Qc_of_Z 0; Qc_of_Z 31; Qc_of_Z 10])
              = Ok tt) by (vm_compute; reflexivity).
  split; [exact P |]. split; [exact B |]. split; [exact L |].
  split; [exact A |].
  exact (highest_position_can_be_dropped _ _ _ P B L A).
Defined.

(** ** The sorter *)

Lemma insert_error_in {A : Type} (lt : A -> A -> result bool) (x : A)
    (acc : list A) (e : exception) :
  insert lt x acc = Err e -> exists y, In y acc /\ lt x y = Err e.
Proof.
  induction acc as [| y rest IH]; cbn [insert]; [discriminate |].
  destruct (lt x y) as [[] | e'] eqn:L; cbv [rbind].
  - discriminate.
  - destruct (insert lt x rest); [discriminate |].
    intros H. injection H as ->. destruct (IH eq_refl) as (z & I & E).
    exists z. split; [right; exact I | exact E].
  - intros H. injection H as ->. exists y. split; [left; reflexivity | exact L].
Qed.

Lemma sorted_from_error_in {A : Type} (lt : A -> A -> result bool)
    (xs acc : list A) (e : exception) :
  sorted_from lt acc xs = Err e ->
  exists x y, In x (acc ++ xs) /\ In y (acc ++ xs) /\ lt x y = Err e.
Proof.
  revert acc. induction xs as [| x xs IH]; intros acc; cbn [sorted_from];
    [discriminate |].
  destruct (insert lt x acc) as [acc' | e'] eqn:I; cbv [rbind].
  - intros H. destruct (IH _ H) as (a & b & Ia & Ib & E).
    apply insert_perm in I.
    assert (P : Permutation (acc' ++ xs) (acc ++ x :: xs)).
    { rewrite <- I. cbn [app]. apply Permutation_middle. }
    exists a, b. split; [| split; [| exact E]];
      eapply Permutation_in; try exact P; assumption.
  - intros H. injection H as ->. apply insert_error_in in I.
    destruct I as (y & Iy & E). exists x, y.
    split; [apply in_or_app; right; left; reflexivity |].
    split; [apply in_or_app; left; exact Iy | exact E].
Qed.

Lemma slice_positions_ok (ds : list Dataset) (positions : list Qc) :
  _slice_positions ds = Ok positions ->
  exists first io,
    first_item ds = Ok first
    /\ ImageOrientationPatient first = Some io
    /\ positions = map (slice_key io) ds
    /\ Forall (fun d => ImagePositionPatient d <> None) ds.
Proof.
  intros H. destruct ds as [| first rest]; [discriminate |].
  destruct (ImageOrientationPatient first) as [io |] eqn:O.
  - exists first, io. split; [reflexivity |]. split; [exact O |].
    apply (slice_positions_keys (first :: rest) first io positions eq_refl O).
    exact H.
  - unfold _slice_positions in H. cbv [first_item rbind] in H.
    rewrite O in H. discriminate.
Qed.

Lemma sort_by_slice_spacing_keys (ds sorted : list Dataset) :
  _sort_by_slice_spacing ds = Ok sorted ->
  exists first io pairs,
    first_item ds = Ok first
    /\ ImageOrientationPatient first = Some io
    /\ Forall (fun d => ImagePositionPatient d <> None) ds
    /\ py_sorted tuple_lt (map (fun d => (slice_key io d, d)) ds) = Ok pairs
    /\ sorted = map snd pairs
    /\ Permutation ds sorted
    /\ StronglySorted tuple_le pairs.
Proof.
  intros H.
  destruct (sort_by_slice_spacing_sound _ _ H)
    as (positions & pairs & Ps & So & E & P & St).
  destruct (slice_positions_ok _ _ Ps) as (first & io & F & O & K & Fp).
  exists first, io, pairs. rewrite K, combine_map_keys in So.
  repeat split; assumption.
Qed.

Lemma tied_pairs_are_equal (pairs : list (Qc * Dataset)) (x y : Qc * Dataset) :
  StronglySorted tuple_le pairs -> In x pairs -> In y pairs ->
  fst x = fst y -> x = y.
Proof.
  intros St Ix Iy E.
  destruct (sorted_comparable tuple_le tuple_le_refl pairs x y St Ix Iy)
    as [[L | L] | [L | L]]; try congruence;
    rewrite E in L; exfalso;
    (eapply Qclt_not_le; [exact L | apply Qcle_refl]).
Qed.

Lemma sorted_map_weaken {A B : Type} (R : A -> A -> Prop) (R' : B -> B -> Prop)
    (f : A -> B) (l : list A) :
  (forall x y, In x l -> In y l -> R x y -> R' (f x) (f y)) ->
  StronglySorted R l -> StronglySorted R' (map f l).
Proof.
  induction l as [| x l IH]; intros W St; cbn [map]; [constructor |].
  inversion St as [| ? ? St' F]; subst. constructor.
  - apply IH; [| exact St']. intros a b Ia Ib. apply W; right; assumption.
  - apply Forall_map. rewrite Forall_forall in *. intros y Iy.
    apply W; [left; reflexivity | right; exact Iy | apply F; exact Iy].
Qed.

Lemma sort_by_slice_spacing_spec (ds sorted : list Dataset) :
  _sort_by_slice_spacing ds = Ok sorted ->
  exists first io,
    first_item ds = Ok first
    /\ ImageOrientationPatient first = Some io
    /\ Permutation ds sorted
    /\ StronglySorted (fun a b => slice_key io a <= slice_key io b) sorted
    /\ (forall a b, In a ds -> In b ds ->
          slice_key io a = slice_key io b -> a = b).
Proof.
  intros H.
  destruct (sort_by_slice_spacing_keys _ _ H)
    as (first & io & pairs & F & O & _ & So & -> & P & St).
  exists first, io. split; [exact F |]. split; [exact O |].
  split; [exact P |].
  pose proof (py_sorted_perm _ _ _ So) as Pp.
  assert (K : forall x, In x pairs -> fst x = slice_key io (snd x)).
  { intros x Ix. apply (Permutation_in _ (Permutation_sym Pp)) in Ix.
    apply in_map_iff in Ix. destruct Ix as (d & <- & _). reflexivity. }
  split.
  - apply (sorted_map_weaken tuple_le); [| exact St].
    intros x y Ix Iy [L | ->]; [| apply Qcle_refl].
    rewrite <- (K x Ix), <- (K y Iy). apply Qclt_le_weak. exact L.
  - intros a b Ia Ib E.
    assert (Pa : In (slice_key io a, a) pairs)
      by (apply (Permutation_in _ Pp), in_map_iff; exists a; auto).
    assert (Pb : In (slice_key io b, b) pairs)
      by (apply (Permutation_in _ Pp), in_map_iff; exists b; auto).
    pose proof (tied_pairs_are_equal pairs _ _ St Pa Pb E) as Q.
    congruence.
Qed.

(** X6.  When the sorter returns, its result is a permutation of the input in
    which the projections of the positions on the slice normal of the first
    input slice never decrease; no two different slices of the input project
    to the same value. *)
Theorem sorter_returns_sorted_permutation (ds sorted : list Dataset) :
  _sort_by_slice_spacing ds = Ok sorted ->
  exists first io,
    first_item ds = Ok first
    /\ ImageOrientationPatient first = Some io
    /\ Permutation ds sorted
    /\ StronglySorted (fun a b => slice_key io a <= slice_key io b) sorted
    /\ (forall a b, In a ds -> In b ds ->
          slice_key io a = slice_key io b -> a = b).
Proof. exact (sort_by_slice_spacing_spec ds sorted). Qed.

Lemma sorter_returns_sorted_permutation_witness :
  _sort_by_slice_spacing [slice_b; slice_a] = Ok [slice_a; slice_b]
  /\ exists io,
       StronglySorted (fun a b => slice_key io a <= slice_key io b)
                      [slice_a; slice_b].
Proof.
  assert (H : _sort_by_slice_spacing [slice_b; slice_a]
              = Ok [slice_a; slice_b]) by (vm_compute; reflexivity).
  split; [exact H |].
  destruct (sorter_returns_sorted_permutation _ _ H)
    as (first & io & _ & _ & _ & St & _).
  exists io. exact St.
Defined.

Lemma tuple_lt_raises (x y : Qc * Dataset) (e : exception) :
  tuple_lt x y = Err e -> fst x = fst y /\ snd x <> snd y.
Proof.
  unfold tuple_lt. destruct (Qc_eqb (fst x) (fst y)) eqn:K; cbv [negb];
    [| discriminate].
  destruct (Dataset_eqb (snd x) (snd y)) eqn:D; [discriminate |].
  intros _. split; [apply Qc_eqb_eq; exact K |].
  intros E. apply Dataset_eqb_eq in E. congruence.
Qed.

Lemma sort_by_slice_spacing_run (ds : list Dataset) (first : Dataset)
    (io : vec3 * vec3) :
  first_item ds = Ok first ->
  ImageOrientationPatient first = Some io ->
  Forall (fun d => ImagePositionPatient d <> None) ds ->
  _sort_by_slice_spacing ds
  = (pairs <- py_sorted tuple_lt (map (fun d => (slice_key io d, d)) ds);;
     Ok (map snd pairs)).
Proof.
  intros F O Fp. unfold _sort_by_slice_spacing.
  rewrite (proj2 (slice_positions_keys ds first io _ F O) (conj eq_refl Fp)).
  cbv [rbind]. rewrite combine_map_keys. reflexivity.
Qed.

Lemma sort_by_slice_spacing_total (ds : list Dataset) (first : Dataset)
    (io : vec3 * vec3) :
  first_item ds = Ok first ->
  ImageOrientationPatient first = Some io ->
  Forall (fun d => ImagePositionPatient d <> None) ds ->
  (exists sorted, _sort_by_slice_spacing ds = Ok sorted)
  \/ (_sort_by_slice_spacing ds = Err TypeError
      /\ exists a b, In a ds /\ In b ds /\ a <> b
                     /\ slice_key io a = slice_key io b).
Proof.
  intros F O Fp. rewrite (sort_by_slice_spacing_run ds first io F O Fp).
  destruct (py_sorted tuple_lt _) as [pairs | e] eqn:So; cbv [rbind];
    [left; eexists; reflexivity | right].
  apply sorted_from_error_in in So.
  destruct So as (x & y & Ix & Iy & E). cbn [app] in Ix, Iy.
  rewrite (tuple_lt_error _ _ _ E). split; [reflexivity |].
  apply tuple_lt_raises in E. destruct E as [K D].
  apply in_map_iff in Ix, Iy.
  destruct Ix as (a & <- & Ia). destruct Iy as (b & <- & Ib).
  exists a, b. cbn [fst snd] in K, D. repeat split; assumption.
Qed.

(** X7.  For a series whose first slice has an orientation and whose slices all
    have a position, the sorter raises [TypeError] exactly when two
    different slices project to the same value on the slice normal, and
    returns exactly when no two do. *)
Theorem sorter_fails_exactly_on_ties (ds : list Dataset) (first : Dataset)
    (io : vec3 * vec3) :
  first_item ds = Ok first ->
  ImageOrientationPatient first = Some io ->
  Forall (fun d => ImagePositionPatient d <> None) ds ->
  let tie := exists a b, In a ds /\ In b ds /\ a <> b
                         /\ slice_key io a = slice_key io b in
  (_sort_by_slice_spacing ds = Err TypeError <-> tie)
  /\ ((exists sorted, _sort_by_slice_spacing ds = Ok sorted) <-> ~ tie).
Proof.
  intros F O Fp tie.
  assert (Ok_no_tie : forall sorted,
            _sort_by_slice_spacing ds = Ok sorted -> ~ tie).
  { intros sorted H (a & b & Ia & Ib & N & E).
    destruct (sort_by_slice_spacing_spec _ _ H)
      as (first' & io' & F' & O' & _ & _ & U).
    assert (io' = io) by congruence. subst io'.
    apply N. apply U; assumption. }
  destruct (sort_by_slice_spacing_total ds first io F O Fp)
    as [[sorted H] | [H T]].
  - pose proof (Ok_no_tie sorted H) as N. rewrite H. split; split.
    + discriminate.
    + intros T. contradiction.
    + intros _. exact N.
    + intros _. exists sorted. reflexivity.
  - rewrite H. split; split.
    + intros _. exact T.
    + intros _. reflexivity.
    + intros [sorted Hs]. discriminate.
    + intros N. contradiction.
Qed.

Lemma sorter_fails_exactly_on_ties_witness :
  first_item [slice_a; slice_a_echo] = Ok slice_a
  /\ ImageOrientationPatient slice_a = Some (Vec3 1 0 0, Vec3 0 1 0)
  /\ Forall (fun d => ImagePositionPatient d <> None) [slice_a; slice_a_echo]
  /\ slice_a <> slice_a_echo
  /\ _sort_by_slice_spacing [slice_a; slice_a_echo] = Err TypeError.
Proof.
  assert (F : first_item [slice_a; slice_a_echo] = Ok slice_a)
    by reflexivity.
  assert (O : ImageOrientationPatient slice_a
              = Some (Vec3 1 0 0, Vec3 0 1 0)) by reflexivity.
  assert (Fp : Forall (fun d => ImagePositionPatient d <> None)
                      [slice_a; slice_a_echo])
    by (repeat constructor; discriminate).
  assert (N : slice_a <> slice_a_echo) by discriminate.
  split; [exact F |]. split; [exact O |]. split; [exact Fp |].
  split; [exact N |].
  apply (sorter_fails_exactly_on_ties _ _ _ F O Fp).
  exists slice_a, slice_a_echo.
  split; [left; reflexivity |]. split; [right; left; reflexivity |].
  split; [exact N | reflexivity].
Defined.

(** X8.  Sorting a series whose slices share one orientation a second time
    returns the same list. *)
Theorem sorting_twice_changes_nothing (ds sorted : list Dataset) :
  _sort_by_slice_spacing ds = Ok sorted ->
  (forall d d', In d ds -> In d' ds ->
     ImageOrientationPatient d = ImageOrientationPatient d') ->
  _sort_by_slice_spacing sorted = Ok sorted.
Proof.
  intros H U.
  destruct (sort_by_slice_spacing_keys _ _ H)
    as (first & io & pairs & F & O & Fp & So & E & P & _).
  destruct (first_item_permutation _ _ _ F P) as (first' & F' & I').
  assert (O' : ImageOrientationPatient first' = Some io).
  { rewrite <- O. apply U; [exact I' | apply first_item_in; exact F]. }
  rewrite (sort_by_slice_spacing_run sorted first' io F' O'
             (Permutation_Forall P Fp)).
  rewrite (sorted_tuples_permutation _ _ _ So
             (Permutation_map (fun d => (slice_key io d, d)) P)).
  cbv [rbind]. congruence.
Qed.

Lemma sorting_twice_changes_nothing_witness :
  _sort_by_slice_spacing [slice_b; slice_a] = Ok [slice_a; slice_b]
  /\ (forall d d', In d [slice_b; slice_a] -> In d' [slice_b; slice_a] ->
        ImageOrientationPatient d = ImageOrientationPatient d')
  /\ _sort_by_slice_spacing [slice_a; slice_b] = Ok [slice_a; slice_b].
Proof.
  assert (H : _sort_by_slice_spacing [slice_b; slice_a]
              = Ok [slice_a; slice_b]) by (vm_compute; reflexivity).
  assert (U : forall d d', In d [slice_b; slice_a] ->
                In d' [slice_b; slice_a] ->
                ImageOrientationPatient d = ImageOrientationPatient d')
    by (intros d d' [<- | [<- | []]] [<- | [<- | []]]; reflexivity).
  split; [exact H |]. split; [exact U |].
  exact (sorting_twice_changes_nothing _ _ H U).
Defined.

(** ** The slice spacing *)

Lemma Qc2R_inv (x : Qc) : x <> 0 -> Qc2R (/ x) = (/ Qc2R x)%R.
Proof.
  intros N. unfold Qc2R.
  transitivity (Q2R (Qinv x)); [apply Qeq_eqR, Qred_correct |].
  apply Q2R_inv. intros E. apply N. apply Qc_is_canon. exact E.
Qed.

Lemma sum_diff (l : list Qc) (x : Qc) :
  Np.sum (Np.diff (x :: l)) = last (x :: l) 0 - x.
Proof.
  revert x. induction l as [| y t IH]; intros x.
  - apply Qc2R_eq. cbv [Np.diff Np.sum fold_right last].
    rewrite Qc2R_minus, Qc2R_0. lra.
  - change (Np.diff (x :: y :: t)) with ((y - x) :: Np.diff (y :: t)).
    change (last (x :: y :: t) 0) with (last (y :: t) 0).
    change (Np.sum ((y - x) :: Np.diff (y :: t)))
      with ((y - x) + Np.sum (Np.diff (y :: t))).
    rewrite IH. apply Qc2R_eq. rewrite Qc2R_plus, !Qc2R_minus. lra.
Qed.

Lemma last_in (l : list Qc) (x : Qc) : In (last (x :: l) 0) (x :: l).
Proof.
  revert x. induction l as [| y t IH]; intros x; [left; reflexivity |].
  change (last (x :: y :: t) 0) with (last (y :: t) 0). right. apply IH.
Qed.

Lemma sorted_bounds (l : list Qc) (x p : Qc) :
  StronglySorted Qcle (x :: l) -> In p (x :: l) ->
  x <= p /\ p <= last (x :: l) 0.
Proof.
  revert x p. induction l as [| y t IH]; intros x p St I.
  - destruct I as [<- | []]. split; apply Qcle_refl.
  - inversion St as [| ? ? St' F]; subst.
    change (last (x :: y :: t) 0) with (last (y :: t) 0).
    destruct I as [<- | I].
    + split; [apply Qcle_refl |].
      rewrite Forall_forall in F. apply F. apply last_in.
    + split; [rewrite Forall_forall in F; apply F; exact I |].
      apply (IH y p St' I).
Qed.

Lemma slice_spacing_extent (ds : list Dataset) (positions : list Qc) :
  (2 <= List.length ds)%nat ->
  _slice_positions ds = Ok positions ->
  exists lowest highest,
    In lowest positions /\ In highest positions
    /\ (forall p, In p positions -> lowest <= p /\ p <= highest)
    /\ _slice_spacing ds
       = Ok ((highest - lowest)
             / Qc_of_Z (Z.of_nat (List.length ds) - 1)).
Proof.
  intros L Ps. unfold _slice_spacing.
  assert ((1 <? List.length ds)%nat = true) as -> by (apply Nat.ltb_lt; lia).
  rewrite Ps. cbv [rbind].
  destruct (sorted_floats_defined positions) as [sp So]. rewrite So.
  destruct (sorted_floats_spec _ _ So) as [P St].
  pose proof (slice_positions_length _ _ Ps) as Lp.
  pose proof (Permutation_length P) as Ls.
  destruct sp as [| x l]; [cbn in Ls; lia |].
  exists x, (last (x :: l) 0).
  split; [apply (Permutation_in _ (Permutation_sym P)); left; reflexivity |].
  split; [apply (Permutation_in _ (Permutation_sym P)), last_in |].
  split.
  - intros p I. apply (sorted_bounds l x p St).
    apply (Permutation_in _ P). exact I.
  - unfold Np.mean. rewrite sum_diff, diff_length. do 3 f_equal.
    rewrite <- Ls, <- Lp. cbn [List.length pred]. lia.
Qed.



(** X10.  The slice spacing is never negative, whatever the order and the
    direction in which the slices were acquired. *)
Theorem slice_spacing_is_not_negative (ds : list Dataset) (spacing : Qc) :
  _slice_spacing ds = Ok spacing -> 0 <= spacing.
Proof.
  intros H. destruct (le_lt_dec 2 (List.length ds)) as [L | L].
  - destruct (_slice_positions ds) as [positions | e] eqn:Ps.
    + destruct (slice_spacing_extent ds positions L Ps)
        as (lowest & highest & Il & _ & B & E).
      rewrite E in H. injection H as <-.
      destruct (B lowest Il) as [_ Hi].
      assert (N : Qc_of_Z (Z.of_nat (List.length ds) - 1) <> 0).
      { intros Z0. apply Qc2R_eq in Z0. rewrite Qc2R_of_Z, Qc2R_0 in Z0.
        apply eq_IZR in Z0. lia. }
      apply Qc2R_le. unfold Qcdiv.
      rewrite Qc2R_0, Qc2R_mult, Qc2R_minus, (Qc2R_inv _ N), Qc2R_of_Z.
      apply Qc2R_le in Hi.
      apply Rmult_le_pos; [lra |].
      apply Rlt_le, Rinv_0_lt_compat, IZR_lt. lia.
    + unfold _slice_spacing in H.
      assert ((1 <? List.length ds)%nat = true) as E
        by (apply Nat.ltb_lt; lia).
      rewrite E, Ps in H. discriminate.
  - unfold _slice_spacing in H.
    assert ((1 <? List.length ds)%nat = false) as E
      by (apply Nat.ltb_ge; lia).
    rewrite E in H. injection H as <-. apply Qcle_refl.
Qed.

Lemma slice_spacing_is_not_negative_witness :
  _slice_spacing [slice_b; slice_a] = Ok (Qc_of_Z 5) /\ 0 <= Qc_of_Z 5.
Proof.
  assert (H : _slice_spacing [slice_b; slice_a] = Ok (Qc_of_Z 5))
    by (vm_compute; reflexivity).
  split; [exact H |].
  exact (slice_spacing_is_not_negative _ _ H).
Defined.

(** ** Attribute comparison: strings and absent attributes *)

Lemma roughly_equal_loop_first_difference (l k : list ascii) :
  roughly_equal_loop (combine (map EChar l) (map EChar k))
  = match first_difference l k with
    | None => Ok true
    | Some (c, d) =>
        if is_digit c && negb (is_digit d) then Err ValueError else Ok false
    end.
Proof.
  revert k. induction l as [| c l IH]; intros [| c' k]; try reflexivity.
  cbn [map combine roughly_equal_loop first_difference].
  cbv [is_float py_float].
  destruct (digit_value c) as [d |] eqn:D; cbv [rbind].
  - destruct (digit_value c') as [d' |] eqn:D'.
    + rewrite margin_test, within_margin_integers.
      destruct (d =? d')%Z eqn:E; cbv [negb].
      * apply Z.eqb_eq in E. subst d'.
        rewrite (digit_value_injective c c' d D D'), Ascii.eqb_refl.
        apply IH.
      * destruct (Ascii.eqb c c') eqn:C.
        -- apply Ascii.eqb_eq in C. subst c'. apply Z.eqb_neq in E.
           congruence.
        -- unfold is_digit. rewrite D, D'. reflexivity.
    + destruct (Ascii.eqb c c') eqn:C.
      * apply Ascii.eqb_eq in C. subst c'. congruence.
      * unfold is_digit. rewrite D, D'. reflexivity.
  - cbv [element_ne]. destruct (Ascii.eqb c c') eqn:C; cbv [negb].
    + apply IH.
    + unfold is_digit. rewrite D. reflexivity.
Qed.

(** X11.  Two strings are compared character by character.  Strings of different
    lengths are unequal.  Strings of one length are equal when no character
    differs; otherwise the comparison ends at the first position where they
    differ, with [ValueError] when the character of the first string is a
    digit and that of the second is not, and with [False] in every other
    case. *)
Theorem string_comparison_stops_at_first_difference (s t : string) :
  _lsts_roughly_equal (VStr s) (VStr t)
  = if negb (String.length s =? String.length t)%nat then Ok false
    else match first_difference (list_ascii_of_string s)
                                (list_ascii_of_string t) with
         | None => Ok true
         | Some (c, d) =>
             if is_digit c && negb (is_digit d) then Err ValueError
             else Ok false
         end.
Proof.
  unfold _lsts_roughly_equal. cbv [is_iterable negb py_len rbind py_iter].
  destruct (String.length s =? String.length t)%nat; [| reflexivity].
  apply roughly_equal_loop_first_difference.
Qed.

Lemma compare_with_absent_initial (name : string) (others : list Dataset) :
  compare_with_initial name VNone others
  = match find (fun d => negb (is_none (getattr d name))) others with
    | None => Ok tt
    | Some d =>
        if is_iterable (getattr d name) then Err TypeError
        else Err (DicomImportException
                    (MsgAttribute name (getattr d name) VNone))
    end.
Proof.
  induction others as [| d rest IH]; [reflexivity |].
  cbn [compare_with_initial find].
  destruct (getattr d name) as [| n | s | l] eqn:G;
    cbv [_lsts_roughly_equal is_iterable is_none negb py_eq py_len rbind];
    rewrite ?G; try reflexivity.
  exact IH.
Qed.

(** X12.  When the first slice lacks an attribute of the invariant set (other
    than the series identifier), the validator accepts the attribute only if
    every other slice lacks it too.  At the first slice that has it, the
    validator raises [TypeError] when the value is a string or a sequence
    (its length is compared with that of [None]), and the
    attribute-mismatch failure when the value is an integer. *)
Theorem attribute_absent_from_first_slice (first : Dataset)
    (others : list Dataset) (name : string) :
  name <> "SeriesInstanceUID" ->
  getattr first name = VNone ->
  _slice_attribute_equal (first :: others) name
  = match find (fun d => negb (is_none (getattr d name))) others with
    | None => Ok tt
    | Some d =>
        if is_iterable (getattr d name) then Err TypeError
        else Err (DicomImportException
                    (MsgAttribute name (getattr d name) VNone))
    end.
Proof.
  intros N G. unfold _slice_attribute_equal.
  apply String.eqb_neq in N. rewrite N. cbv [first_item rbind tl].
  rewrite G. apply compare_with_absent_initial.
Qed.

Lemma attribute_absent_from_first_slice_witness :
  "PixelSpacing" <> "SeriesInstanceUID"
  /\ getattr (with_pixel_spacing None slice_a) "PixelSpacing" = VNone
  /\ _slice_attribute_equal [with_pixel_spacing None slice_a; slice_b]
                            "PixelSpacing" = Err TypeError.
Proof.
  assert (N : "PixelSpacing" <> "SeriesInstanceUID") by discriminate.
  assert (G : getattr (with_pixel_spacing None slice_a) "PixelSpacing"
              = VNone) by reflexivity.
  split; [exact N |]. split; [exact G |].
  rewrite (attribute_absent_from_first_slice _ [slice_b] _ N G).
  reflexivity.
Defined.

Lemma compare_with_initial_absent_value (name : string) (initial : value)
    (before after : list Dataset) (d : Dataset) :
  Forall (fun x => _lsts_roughly_equal (getattr x name) initial = Ok true)
         before ->
  getattr d name = VNone -> initial <> VNone ->
  compare_with_initial name initial (before ++ d :: after)
  = Err (DicomImportException (MsgAttribute name VNone initial)).
Proof.
  intros F G N. apply compare_with_initial_mismatch.
  exists before, d, after. split; [reflexivity |]. split; [exact F |].
  rewrite G. split; [| reflexivity].
  destruct initial; [contradiction | reflexivity ..].
Qed.

(** X13.  When the first slice has an attribute of the invariant set (other than
    the series identifier), the first later slice that lacks it, after
    slices that agree with the first, makes the validator raise the
    attribute-mismatch failure that names the attribute. *)
Theorem attribute_absent_from_later_slice (first d : Dataset)
    (before after : list Dataset) (name : string) :
  name <> "SeriesInstanceUID" ->
  getattr first name <> VNone ->
  Forall (fun x => _lsts_roughly_equal (getattr x name) (getattr first name)
                   = Ok true) before ->
  getattr d name = VNone ->
  _slice_attribute_equal (first :: before ++ d :: after) name
  = Err (DicomImportException
           (MsgAttribute name VNone (getattr first name))).
Proof.
  intros N G F A. unfold _slice_attribute_equal.
  apply String.eqb_neq in N. rewrite N. cbv [first_item rbind tl].
  apply compare_with_initial_absent_value; assumption.
Qed.

Lemma attribute_absent_from_later_slice_witness :
  "PixelSpacing" <> "SeriesInstanceUID"
  /\ getattr slice_a "PixelSpacing" <> VNone
  /\ getattr (with_pixel_spacing None slice_b) "PixelSpacing" = VNone
  /\ _slice_attribute_equal
       [slice_a; with_pixel_spacing None slice_b] "PixelSpacing"
     = Err (DicomImportException
              (MsgAttribute "PixelSpacing" VNone
                            (getattr slice_a "PixelSpacing"))).
Proof.
  assert (N : "PixelSpacing" <> "SeriesInstanceUID") by discriminate.
  assert (G : getattr slice_a "PixelSpacing" <> VNone) by discriminate.
  assert (A : getattr (with_pixel_spacing None slice_b) "PixelSpacing"
              = VNone) by reflexivity.
  split; [exact N |]. split; [exact G |]. split; [exact A |].
  exact (attribute_absent_from_later_slice slice_a _ [] [] _ N G
           (Forall_nil _) A).
Defined.

(** ** The exceptions of the entry operation *)

Lemma attr_raises {A : Type} (name : string) (field : option A)
    (e : exception) :
  attr name field = Err e -> e = AttributeError name /\ field = None.
Proof.
  destruct field; cbn; [discriminate |]. intros H. injection H as <-.
  split; reflexivity.
Qed.

Lemma attr_raises_ok {A : Type} (name : string) (field : option A) (a : A) :
  attr name field = Ok a -> field = Some a.
Proof. destruct field; cbn; [congruence | discriminate]. Qed.

Lemma absent_cause (ds : list Dataset) (d : Dataset) (name : string) :
  In d ds -> In name accessed_attributes -> hasattr d name = false ->
  error_cause ds (AttributeError name).
Proof. intros I N H. split; [exact N |]. exists d. split; assumption. Qed.

Lemma slice_positions_cause (ds : list Dataset) (e : exception) :
  ds <> [] -> _slice_positions ds = Err e -> error_cause ds e.
Proof.
  intros N. destruct ds as [| first others]; [contradiction |].
  unfold _slice_positions. cbv [first_item rbind].
  destruct (attr _ (ImageOrientationPatient first)) as [io |] eqn:O.
  - destruct (_extract_cosines io) as [[? ?] slice_cosine].
    intros H. apply map_result_error in H. destruct H as (d & I & H).
    destruct (attr _ (ImagePositionPatient d)) as [p |] eqn:P;
      [discriminate |].
    injection H as <-. apply attr_raises in P. destruct P as [-> P].
    apply (absent_cause _ d); [exact I | cbv; tauto |].
    cbv [hasattr String.eqb Ascii.eqb Bool.eqb]. rewrite P. reflexivity.
  - intros H. injection H as <-. apply attr_raises in O.
    destruct O as [-> O].
    apply (absent_cause _ first); [left; reflexivity | cbv; tauto |].
    cbv [hasattr String.eqb Ascii.eqb Bool.eqb]. rewrite O. reflexivity.
Qed.

Lemma sort_by_slice_spacing_cause (ds : list Dataset) (e : exception) :
  ds <> [] -> _sort_by_slice_spacing ds = Err e -> error_cause ds e.
Proof.
  intros N. unfold _sort_by_slice_spacing.
  destruct (_slice_positions ds) as [positions |] eqn:P; cbv [rbind];
    [| intros H; injection H as <-; apply slice_positions_cause; assumption].
  destruct (py_sorted _ _) as [pairs |] eqn:So; [discriminate |].
  intros H. injection H as <-.
  apply py_sorted_error in So. destruct So as (x & y & So).
  apply tuple_lt_error in So. subst. exact I.
Qed.

Lemma slice_spacing_cause (ds : list Dataset) (e : exception) :
  ds <> [] -> _slice_spacing ds = Err e -> error_cause ds e.
Proof.
  intros N. unfold _slice_spacing.
  destruct (1 <? List.length ds)%nat; [| discriminate].
  destruct (_slice_positions ds) as [positions |] eqn:P; cbv [rbind];
    [| intros H; injection H as <-; apply slice_positions_cause; assumption].
  destruct (sorted_floats_defined positions) as [sp ->]. discriminate.
Qed.

Lemma broadcast_axis_raises {T : Type} (n len : nat) (l : list T)
    (e : exception) :
  broadcast_axis n len l = Err e -> e = ValueError.
Proof.
  unfold broadcast_axis. destruct (len =? n)%nat; [discriminate |].
  destruct (len =? 1)%nat; [destruct l; [| discriminate] |];
    intros H; injection H as <-; reflexivity.
Qed.

Lemma assigned_plane_raises {T : Type} (c r : nat) (a : list (list T))
    (e : exception) :
  assigned_plane c r a = Err e -> e = ValueError.
Proof.
  unfold assigned_plane. destruct (shape2 a) as [n0 n1].
  destruct (map_result _ a) as [rows |] eqn:M; cbv [rbind].
  - apply broadcast_axis_raises.
  - intros H. injection H as <-. apply map_result_error in M.
    destruct M as (l & _ & M). eapply broadcast_axis_raises. exact M.
Qed.

Lemma dimension_raises (n : Z) (e : exception) :
  dimension n = Err e -> e = ValueError.
Proof.
  unfold dimension. destruct (n <? 0)%Z; [| discriminate].
  intros H. injection H as <-. reflexivity.
Qed.

Lemma merge_cause (ds : list Dataset) (e : exception) :
  ds <> [] -> _merge_slice_pixel_arrays ds = Err e -> error_cause ds e.
Proof.
  intros N. destruct ds as [| first others]; [contradiction |].
  unfold _merge_slice_pixel_arrays. cbv [first_item rbind].
  destruct (attr _ (Rows first)) as [num_rows |] eqn:Rw.
  2:{ intros H. injection H as <-. apply attr_raises in Rw.
      destruct Rw as [-> Rw].
      apply (absent_cause _ first); [left; reflexivity | cbv; tauto |].
      cbv [hasattr String.eqb Ascii.eqb Bool.eqb]. rewrite Rw. reflexivity. }
  destruct (attr _ (Columns first)) as [num_columns |] eqn:Cl.
  2:{ intros H. injection H as <-. apply attr_raises in Cl.
      destruct Cl as [-> Cl].
      apply (absent_cause _ first); [left; reflexivity | cbv; tauto |].
      cbv [hasattr String.eqb Ascii.eqb Bool.eqb]. rewrite Cl. reflexivity. }
  destruct (_sort_by_slice_spacing (first :: others)) as [sorted |] eqn:So;
    [| intros H; injection H as <-; apply sort_by_slice_spacing_cause;
       assumption].
  destruct (existsb _requires_rescaling sorted);
    (destruct (dimension num_columns) as [c |] eqn:Dc;
       [| intros H; injection H as <-; apply dimension_raises in Dc;
          subst; exact I]);
    (destruct (dimension num_rows) as [r |] eqn:Dr;
       [| intros H; injection H as <-; apply dimension_raises in Dr;
          subst; exact I]);
    (destruct (map_result _ sorted) as [planes |] eqn:M; [discriminate |]);
    intros H; injection H as <-; apply map_result_error in M;
    destruct M as (d & _ & M); apply assigned_plane_raises in M; subst;
    exact I.
Qed.

Lemma transform_cause (ds : list Dataset) (e : exception) :
  ds <> [] -> _ijk_to_patient_xyz_transform_matrix ds = Err e ->
  error_cause ds e.
Proof.
  intros N. unfold _ijk_to_patient_xyz_transform_matrix.
  destruct (_sort_by_slice_spacing ds) as [sorted |] eqn:So; cbv [rbind];
    [| intros H; injection H as <-; apply sort_by_slice_spacing_cause;
       assumption].
  destruct (sort_by_slice_spacing_sound _ _ So) as (_ & _ & _ & _ & _ & P & _).
  destruct sorted as [| first rest].
  { apply Permutation_sym, Permutation_nil in P. contradiction. }
  assert (F : In first ds)
    by (apply (Permutation_in _ (Permutation_sym P)); left; reflexivity).
  cbv [first_item].
  destruct (attr _ (ImageOrientationPatient first)) as [io |] eqn:O.
  2:{ intros H. injection H as <-. apply attr_raises in O.
      destruct O as [-> O].
      apply (absent_cause _ first); [exact F | cbv; tauto |].
      cbv [hasattr String.eqb Ascii.eqb Bool.eqb]. rewrite O. reflexivity. }
  destruct (_extract_cosines io) as [[row_cosine column_cosine] slice_cosine].
  destruct (attr _ (PixelSpacing first)) as [[row_spacing column_spacing] |]
    eqn:Px.
  2:{ intros H. injection H as <-. apply attr_raises in Px.
      destruct Px as [-> Px].
      apply (absent_cause _ first); [exact F | cbv; tauto |].
      cbv [hasattr String.eqb Ascii.eqb Bool.eqb]. rewrite Px. reflexivity. }
  destruct (_slice_spacing ds) as [slice_spacing |] eqn:Sp;
    [| intros H; injection H as <-; apply slice_spacing_cause; assumption].
  destruct (attr _ (ImagePositionPatient first)) as [position |] eqn:Ps;
    [discriminate |].
  intros H. injection H as <-. apply attr_raises in Ps.
  destruct Ps as [-> Ps].
  apply (absent_cause _ first); [exact F | cbv; tauto |].
  cbv [hasattr String.eqb Ascii.eqb Bool.eqb]. rewrite Ps. reflexivity.
Qed.

Lemma roughly_equal_loop_raises (pairs : list (element * element))
    (e : exception) :
  roughly_equal_loop pairs = Err e -> e = ValueError.
Proof.
  induction pairs as [| [a b] rest IH]; cbn [roughly_equal_loop];
    [discriminate |].
  unfold is_float.
  destruct (py_float a) as [x |] eqn:A; cbv [rbind].
  - destruct (py_float b) as [y |] eqn:B.
    + destruct (negb _); [discriminate | exact IH].
    + intros H. injection H as <-.
      destruct b as [c | q]; cbn in B; [| discriminate].
      destruct (digit_value c); [discriminate |]. injection B as <-.
      reflexivity.
  - destruct a as [c | q]; cbn in A; [| discriminate].
    destruct (digit_value c); [discriminate |]. injection A as <-.
    cbv iota beta. destruct (element_ne _ _); [discriminate | exact IH].
Qed.

Lemma lsts_roughly_equal_raises (a b : value) (e : exception) :
  _lsts_roughly_equal a b = Err e -> e = TypeError \/ e = ValueError.
Proof.
  unfold _lsts_roughly_equal. destruct (negb (is_iterable a)); [discriminate |].
  destruct (py_len a) as [n1 |] eqn:L1; cbv [rbind].
  - destruct (py_len b) as [n2 |] eqn:L2.
    + destruct (negb _); [discriminate |].
      intros H. right. eapply roughly_equal_loop_raises. exact H.
    + intros H. injection H as <-. left.
      destruct b; cbn in L2; try discriminate; injection L2 as <-;
        reflexivity.
  - intros H. injection H as <-. left.
    destruct a; cbn in L1; try discriminate; injection L1 as <-; reflexivity.
Qed.

Lemma compare_with_initial_cause (ds : list Dataset) (name : string)
    (initial : value) (others : list Dataset) (e : exception) :
  compare_with_initial name initial others = Err e -> error_cause ds e.
Proof.
  induction others as [| d rest IH]; cbn [compare_with_initial];
    [discriminate |].
  destruct (_lsts_roughly_equal (getattr d name) initial) as [[] |] eqn:L;
    cbv [rbind negb].
  - exact IH.
  - intros H. injection H as <-. cbn. discriminate.
  - intros H. injection H as <-. apply lsts_roughly_equal_raises in L.
    destruct L as [-> | ->]; exact I.
Qed.

Lemma check_properties_cause (ds : list Dataset) (names : list string)
    (e : exception) :
  ds <> [] -> check_properties ds names = Err e -> error_cause ds e.
Proof.
  intros N. destruct ds as [| first others]; [contradiction |].
  induction names as [| name rest IH]; cbn [check_properties];
    [discriminate |].
  destruct (_slice_attribute_equal (first :: others) name) as [[] |] eqn:A;
    cbv [rbind]; [exact IH |].
  intros H. injection H as <-. unfold _slice_attribute_equal in A.
  destruct (String.eqb name "SeriesInstanceUID"); [discriminate |].
  cbv [first_item rbind] in A.
  eapply compare_with_initial_cause. exact A.
Qed.

Lemma spacing_check_raises (positions : list Qc) (e : exception) :
  outcome (_check_for_missing_slices positions) = Err e ->
  ((List.length positions <= 1)%nat /\ e = IndexError)
  \/ ((2 <= List.length positions)%nat
      /\ e = DicomImportException MsgMissingSlices).
Proof.
  destruct (spacing_check_cases positions)
    as [[L ->] | (L & sp & _ & [-> | [-> | ->]])]; cbv [outcome snd];
    intros H; try discriminate; injection H as <-;
    [left | right]; split; auto.
Qed.

Lemma combine_slices_error_cause (ds : list Dataset) (e : exception) :
  outcome (combine_slices ds) = Err e ->
  (ds = [] /\ e = DicomImportException MsgNoDataset)
  \/ (ds <> [] /\ error_cause ds e)
  \/ (e = IndexError
      /\ exists d io,
           ds = [d]
           /\ ImageOrientationPatient d = Some io
           /\ outcome (_validate_image_orientation io) = Ok tt
           /\ ImagePositionPatient d <> None).
Proof.
  rewrite combine_slices_outcome.
  destruct ds as [| first others];
    [intros H; injection H as <-; left; split; reflexivity |].
  assert (N : first :: others <> []) by discriminate.
  rewrite validate_grid_outcome.
  destruct (check_properties _ _) as [[] | e'] eqn:C;
    [| intros H; injection H as <-; right; left; split; [exact N |];
       eapply check_properties_cause; [exact N | exact C]].
  cbv [first_item rbind].
  destruct (attr _ (ImageOrientationPatient first)) as [io |] eqn:O.
  2:{ intros H. injection H as <-. apply attr_raises in O.
      destruct O as [-> O]. right. left. split; [exact N |].
      apply (absent_cause _ first); [left; reflexivity | cbv; tauto |].
      cbv [hasattr String.eqb Ascii.eqb Bool.eqb]. rewrite O. reflexivity. }
  destruct (outcome (_validate_image_orientation io)) as [[] | e'] eqn:V.
  2:{ intros H. injection H as <-. right. left. split; [exact N |].
      apply orientation_failures in V.
      destruct V as [-> | [-> | ->]]; cbn; discriminate. }
  destruct (_slice_positions (first :: others)) as [positions | e'] eqn:Ps;
    [| intros H; injection H as <-; right; left; split; [exact N |];
       apply slice_positions_cause; assumption].
  destruct (outcome (_check_for_missing_slices positions)) as [[] | e'] eqn:K.
  2:{ intros H. injection H as <-. apply spacing_check_raises in K.
      destruct K as [[L ->] | [L ->]].
      - right. right. split; [reflexivity |].
        pose proof (slice_positions_length _ _ Ps) as Lp.
        destruct others as [| second rest]; [| cbn in Lp; lia].
        exists first, io. split; [reflexivity |].
        apply attr_raises_ok in O. split; [exact O |].
        split; [exact V |].
        destruct (slice_positions_ok _ _ Ps) as (_ & _ & _ & _ & _ & F).
        inversion F. assumption.
      - right. left. split; [exact N |]. cbn. discriminate. }
  destruct (_merge_slice_pixel_arrays _) as [vox | e'] eqn:M;
    [| intros H; injection H as <-; right; left; split; [exact N |];
       apply merge_cause; assumption].
  destruct (_ijk_to_patient_xyz_transform_matrix _) as [t | e'] eqn:T;
    [discriminate |].
  intros H. injection H as <-. right. left. split; [exact N |].
  apply transform_cause; assumption.
Qed.

(** X14.  The entry operation raises the empty-input failure for the empty list
    and for no other input. *)
Theorem empty_input_failure_only_for_empty_input (ds : list Dataset) :
  outcome (combine_slices ds) = Err (DicomImportException MsgNoDataset)
  <-> ds = [].
Proof.
  split; [| intros ->; reflexivity].
  intros H. apply combine_slices_error_cause in H.
  destruct H as [[E _] | [[_ C] | [C _]]];
    [exact E | exfalso; apply C; reflexivity | discriminate].
Qed.

Lemma single_slice_run (d : Dataset) (io : vec3 * vec3) :
  ImageOrientationPatient d = Some io ->
  outcome (_validate_image_orientation io) = Ok tt ->
  ImagePositionPatient d <> None ->
  outcome (combine_slices [d]) = Err IndexError.
Proof.
  intros O V P. rewrite combine_slices_outcome, validate_grid_outcome.
  rewrite check_properties_single. cbv [first_item rbind]. rewrite O.
  cbv [attr]. rewrite V.
  assert (Ps : _slice_positions [d] = Ok (map (slice_key io) [d])).
  { apply (slice_positions_keys [d] d io _ eq_refl O).
    split; [reflexivity |]. constructor; [exact P | constructor]. }
  rewrite Ps. cbn [map]. rewrite single_slice_positions_check. reflexivity.
Qed.

(** X15.  The entry operation raises [IndexError] exactly for a series of one
    slice that has a valid orientation and a position: such a slice passes
    every check up to the spacing check, which indexes the empty array of
    differences. *)
Theorem index_error_exactly_for_one_valid_slice (ds : list Dataset) :
  outcome (combine_slices ds) = Err IndexError
  <-> exists d io,
        ds = [d]
        /\ ImageOrientationPatient d = Some io
        /\ outcome (_validate_image_orientation io) = Ok tt
        /\ ImagePositionPatient d <> None.
Proof.
  split.
  - intros H. apply combine_slices_error_cause in H.
    destruct H as [[_ E] | [[_ C] | [_ C]]];
      [discriminate | contradiction | exact C].
  - intros (d & io & -> & O & V & P). exact (single_slice_run d io O V P).
Qed.

(** X16.  When the entry operation raises [AttributeError], for slices that
    carry pixel data, the name is one of the five attributes that the code
    reads by plain attribute access (orientation, position, rows, columns,
    pixel spacing), and some slice of the series lacks that attribute.  The
    attributes of the invariant set and the rescale attributes are read with
    a default and never raise it. *)
Theorem attribute_error_names_an_absent_attribute (ds : list Dataset)
    (name : string) :
  outcome (combine_slices ds) = Err (AttributeError name) ->
  In name accessed_attributes
  /\ exists d, In d ds /\ hasattr d name = false.
Proof.
  intros H. apply combine_slices_error_cause in H.
  destruct H as [[_ E] | [[_ C] | [E _]]];
    [discriminate | exact C | discriminate].
Qed.

Lemma attribute_error_names_an_absent_attribute_witness :
  outcome (combine_slices [slice_a; with_position None slice_b])
  = Err (AttributeError "ImagePositionPatient")
  /\ In "ImagePositionPatient" accessed_attributes
  /\ exists d, In d [slice_a; with_position None slice_b]
               /\ hasattr d "ImagePositionPatient" = false.
Proof.
  assert (H : outcome (combine_slices [slice_a; with_position None slice_b])
              = Err (AttributeError "ImagePositionPatient"))
    by (vm_compute; reflexivity).
  split; [exact H |].
  exact (attribute_error_names_an_absent_attribute _ _ H).
Defined.

(** ** What acceptance guarantees *)









(** ** Geometry of the transform *)








(** ** Sufficient conditions for success *)









(** ** Closeness of the geometry of an accepted series *)





(** ** The transform on a regular grid of slices *)











(** ** Symmetries of the comparisons *)




(** X25.  The spacing check depends on the positions only as a multiset:
    on a permutation of the positions it logs the same warning and ends in
    the same way. *)
Theorem spacing_check_ignores_the_order (positions positions' : list Qc) :
  Permutation positions positions' ->
  _check_for_missing_slices positions'
  = _check_for_missing_slices positions.
Proof. exact (check_for_missing_slices_permutation positions positions'). Qed.

Lemma spacing_check_ignores_the_order_witness :
  Permutation [Qc_of_Z 0; Qc_of_Z 8; Qc_of_Z 17]
              [Qc_of_Z 8; Qc_of_Z 0; Qc_of_Z 17]
  /\ _check_for_missing_slices [Qc_of_Z 8; Qc_of_Z 0; Qc_of_Z 17]
     = _check_for_missing_slices [Qc_of_Z 0; Qc_of_Z 8; Qc_of_Z 17].
Proof.
  assert (P : Permutation [Qc_of_Z 0; Qc_of_Z 8; Qc_of_Z 17]
                          [Qc_of_Z 8; Qc_of_Z 0; Qc_of_Z 17])
    by apply perm_swap.
  split; [exact P |].
  exact (spacing_check_ignores_the_order _ _ P).
Defined.
